(** * PuckBarcodeReader: the contour locator of [dls_barcode.datamatrix]

    A shallow embedding of [locate_contour.py] (class [ContourLocator] and the
    numeric helpers below it) and the properties of the locator.

    Conventions of the embedding.
    - A vertex is a two-element [np.int32] array, as OpenCV gives the points
      of a contour. Its coordinates are pixel positions, from 0 to 2^31 - 1:
      the difference of two of them and the opposite of one fit in 32 bits, so
      [np.subtract], [np.add] and unary minus on them are written without
      wrap-around. Products and sums of products do not fit: they are
      [np.int32] operations and wrap ([wrap32]), numpy being in its default
      error state (a warning at most on overflow, nan or an infinity for a
      numpy scalar divided by zero).
    - Python floats are IEEE binary64 and are kept as primitive floats, whose
      operations are the same correctly rounded ones; [math.sqrt] is [sqrt] on
      what is not negative and raises ValueError below zero.
    - A Python exception is a [Raise] outcome of the [result] type, named by
      its class.
    - Generators follow PEP 479 (Python 3.7 and later): a StopIteration that
      escapes the body of a generator is a RuntimeError.
    - numpy's [argsort] and the OpenCV primitives are not part of the
      repository: they are variables of the sections that use them. *)

From Stdlib Require Import ZArith List Lia Bool Arith Permutation.
From Stdlib Require Import Floats.
From Stdlib Require String.
Import ListNotations.

Set Implicit Arguments.

(** ** Exceptions and results *)

Inductive exn : Type :=
| ValueError          (* unpacking [i, j = ...] from fewer than two indices;
                         [math.sqrt] of a negative number *)
| IndexError          (* [edges[x]] out of range *)
| TypeError           (* arithmetic on [None]; [reduce] of nothing *)
| ZeroDivisionError   (* float division by zero *)
| RuntimeError        (* StopIteration escaping a generator *)
| CvError.            (* [cv2.error] raised by an OpenCV primitive *)

Inductive result (A : Type) : Type :=
| Ok (a : A)
| Raise (e : exn).

Arguments Ok {A} a.
Arguments Raise {A} e.

Definition bind {A B : Type} (r : result A) (k : A -> result B) : result B :=
  match r with
  | Ok a => k a
  | Raise e => Raise e
  end.

Declare Scope result_scope.
Delimit Scope result_scope with result.
Notation "x <- r ;; k" := (bind r (fun x => k))
  (at level 61, r at next level, right associativity) : result_scope.
Notation "' p <- r ;; k" := (bind r (fun p => k))
  (at level 61, p pattern, r at next level, right associativity) : result_scope.
Open Scope result_scope.

(** A function applied to what was returned. *)
Definition fmap (A B : Type) (f : A -> B) (r : result A) : result B :=
  x <- r ;; Ok (f x).

(** [list(map(f, xs))]: the elements in order, up to the first exception. *)
Fixpoint result_map (A B : Type) (f : A -> result B) (xs : list A)
  : result (list B) :=
  match xs with
  | [] => Ok []
  | x :: xs' =>
      y <- f x ;;
      ys <- result_map f xs' ;;
      Ok (y :: ys)
  end.

(** ** 32-bit integers *)

(** The value of an integer once stored in an [np.int32]. *)
Definition wrap32 (z : Z) : Z :=
  ((z + 2147483648) mod 4294967296 - 2147483648)%Z.

Definition int32_add (a b : Z) : Z := wrap32 (a + b).
Definition int32_sub (a b : Z) : Z := wrap32 (a - b).
Definition int32_mul (a b : Z) : Z := wrap32 (a * b).

(** ** Vertices, vectors and edges *)

Definition vertex : Type := (Z * Z)%type.
Definition vector : Type := (Z * Z)%type.
Definition edge : Type := (vertex * vertex)%type.

(** [(vertex_a == vertex_b).all()] *)
Definition vertex_eqb (a b : vertex) : bool :=
  (fst a =? fst b)%Z && (snd a =? snd b)%Z.

(** [np.subtract], [np.add] and unary minus, as the locator applies them: to
    two pixel positions, to one, and to the opposite of one and another. On
    those they do not wrap. *)
Definition np_subtract (a b : vertex) : vector :=
  (fst a - fst b, snd a - snd b)%Z.

Definition np_add (a b : vector) : vector :=
  (fst a + fst b, snd a + snd b)%Z.

Definition np_negative (a : vector) : vector :=
  (- fst a, - snd a)%Z.

(** [np.dot] of two [np.int32] arrays is an [np.int32]. *)
Definition np_dot (a b : vector) : Z :=
  int32_add (int32_mul (fst a) (fst b)) (int32_mul (snd a) (snd b)).

(** A pixel position. *)
Definition pixel (v : vertex) : Prop :=
  (0 <= fst v < 2147483648)%Z /\ (0 <= snd v < 2147483648)%Z.

(** Equal up to sign. *)
Definition same_line (a b : vector) : Prop := a = b \/ a = np_negative b.

(** ** Numeric helpers *)

(** Conversion of an integer to binary64, correctly rounded. *)
Definition float_of_pos (p : positive) : float :=
  SF2Prim (binary_normalize prec emax (Zpos p) 0 false).

Definition float_of_Z (z : Z) : float :=
  match z with
  | Z0 => 0%float
  | Zpos p => float_of_pos p
  | Zneg p => (- float_of_pos p)%float
  end.

(** [math.sqrt(x)] for an [np.int32]. *)
Definition math_sqrt (x : Z) : result float :=
  if (x <? 0)%Z then Raise ValueError else Ok (sqrt (float_of_Z x)).

(** [math.sqrt(reduce(add, (c*c for c in values)))]: the values are
    [np.int32], and so are their squares and the sums of these; [reduce]
    without an initial value starts from the first square and raises
    TypeError when there is none. *)
Definition quadrature_add (values : list Z) : result float :=
  match map (fun c => int32_mul c c) values with
  | [] => Raise TypeError
  | s :: rest => math_sqrt (fold_left int32_add rest s)
  end.

Definition _modulus (v : vector) : result float :=
  quadrature_add [fst v; snd v].

Definition _distance (point_a point_b : vertex) : result float :=
  _modulus (np_subtract point_a point_b).

Definition _length (e : edge) : result float :=
  _distance (fst e) (snd e).

(** [np.dot(vec_a, vec_b)/(_modulus(vec_a) * _modulus(vec_b))]: the dot product
    is a numpy scalar, so a zero denominator gives nan or an infinity, not an
    exception. *)
Definition _cosine (vec_a vec_b : vector) : result float :=
  let dot := np_dot vec_a vec_b in
  m_a <- _modulus vec_a ;;
  m_b <- _modulus vec_b ;;
  Ok (float_of_Z dot / (m_a * m_b))%float.

(** The literal [0.1]: the binary64 value nearest to one tenth. *)
Definition tenth : float := 0x1.999999999999ap-4%float.

(** ** The Edge-Set Builder *)

Section PairsCircular.
Variable A : Type.

(** The [while True] loop of [_pairs_circular]: [x] is the current element,
    [y] the last one bound by [next] (unbound at first), [it] what is left of
    the iterator. *)
Fixpoint pairs_loop (zeroth x : A) (y : option A) (it : list A) : list (A * A) :=
  match it with
  | y' :: it' => (x, y') :: pairs_loop zeroth y' (Some y') it'
  | [] =>
      match y with
      | Some y' => [(y', zeroth)]
      | None => []            (* UnboundLocalError: one element, no pairs *)
      end
  end.

(** [x = next(iterator)] on an empty iterable raises StopIteration in the
    body of the generator: a RuntimeError for whoever consumes it (before
    PEP 479 the generator simply ended, with no pairs). *)
Definition _pairs_circular (iterable : list A) : result (list (A * A)) :=
  match iterable with
  | [] => Raise RuntimeError
  | x :: it => Ok (pairs_loop x x None it)
  end.
End PairsCircular.

Definition _convert_to_edge_set (vertex_list : list vertex)
  : result (list edge) :=
  _pairs_circular vertex_list.

(** ** Finder patterns *)

(** Modelled from the spec: the class [FinderPattern] of
    [dls_barcode/datamatrix/finder_pattern.py], which the locator only
    constructs; it holds the corner and the two vectors leaving it. *)
Record FinderPattern : Type := mkFinderPattern {
  corner : vertex;
  base_vector : vector;
  side_vector : vector
}.

(** The signed 2D cross product [a.x*b.y - a.y*b.x]. *)
Definition cross (a b : vector) : Z :=
  (fst a * snd b - snd a * fst b)%Z.

(** The dot product [a.x*b.x + a.y*b.y] and the squared length of a vector,
    as integers: the angle [t] between [a] and [b] has
    [cos t ^ 2 = dot a b ^ 2 / (norm2 a * norm2 b)]. *)
Definition dot (a b : vector) : Z :=
  (fst a * fst b + snd a * snd b)%Z.

Definition norm2 (a : vector) : Z := dot a a.

(** A pixel of an image of at most 32768 by 32768, and an edge between two
    of them: the squares and products the locator forms from such edges fit
    in 32 bits. *)
Definition in_frame (v : vertex) : bool :=
  (0 <=? fst v)%Z && (fst v <=? 32767)%Z &&
  (0 <=? snd v)%Z && (snd v <=? 32767)%Z.

Definition edge_in_frame (e : edge) : bool :=
  in_frame (fst e) && in_frame (snd e).

(** A vector of components at most 32767 in magnitude. *)
Definition small (v : vector) : bool :=
  (Z.abs (fst v) <=? 32767)%Z && (Z.abs (snd v) <=? 32767)%Z.

(** ** Sequences *)

(** [xs[-2:]] *)
Definition last_two (A : Type) (xs : list A) : list A :=
  skipn (length xs - 2) xs.

(** [i, j = xs] *)
Definition unpack2 (A : Type) (xs : list A) : result (A * A) :=
  match xs with
  | [i; j] => Ok (i, j)
  | _ => Raise ValueError
  end.

(** [xs[n]] for an index that is not negative *)
Definition getitem (A : Type) (xs : list A) (n : nat) : result A :=
  match nth_error xs n with
  | Some x => Ok x
  | None => Raise IndexError
  end.

(** ** A stable argsort

    One argsort among those numpy may implement: the one that keeps equal keys
    in their order. It is the instance the examples run on, none of which has
    two equal keys among the greatest two. The locator itself is stated for
    any argsort (section below). *)

Definition key_at (keys : list float) (i : nat) : float := nth i keys nan.

Fixpoint insert_index (keys : list float) (i : nat) (sorted : list nat) : list nat :=
  match sorted with
  | [] => [i]
  | j :: rest =>
      if (key_at keys i <? key_at keys j)%float
      then i :: j :: rest
      else j :: insert_index keys i rest
  end.

Definition np_argsort (keys : list float) : list nat :=
  fold_left (fun acc i => insert_index keys i acc) (seq 0 (length keys)) [].

(** ** The locator's geometry: filters and corner extraction *)

Section Locator.

(** [ndarray.argsort]: the indices of the array in some order. *)
Variable argsort : list float -> list nat.
Hypothesis argsort_perm :
  forall keys, Permutation (argsort keys) (seq 0 (length keys)).

Definition _filter_non_trivial (edge_set : list edge) : bool :=
  6 <? length edge_set.

(** [lengths = list(map(_length, edges))], then
    [np.asarray(lengths).argsort()[-2:][::-1]] *)
Definition _longest_pair_indices (edges : list edge) : result (list nat) :=
  lengths <- result_map _length edges ;;
  Ok (rev (last_two (argsort lengths))).

Definition _filter_longest_adjacent (edges : list edge) : result bool :=
  indices <- _longest_pair_indices edges ;;
  '(i, j) <- unpack2 indices ;;
  let d := Z.abs (Z.of_nat i - Z.of_nat j) in
  Ok ((d =? 1)%Z || (d =? Z.of_nat (length edges) - 1)%Z).

Definition _filter_longest_approx_orthogonal (edges : list edge) : result bool :=
  indices <- _longest_pair_indices edges ;;
  '(i, j) <- unpack2 indices ;;
  e_i <- getitem edges i ;;
  e_j <- getitem edges j ;;
  let v_i := np_subtract (fst e_i) (snd e_i) in
  let v_j := np_subtract (fst e_j) (snd e_j) in
  c <- _cosine v_i v_j ;;
  Ok (abs c <? tenth)%float.

(** [l_i] and [l_j] are Python floats: dividing by zero raises. *)
Definition _filter_longest_similar_in_length (edges : list edge) : result bool :=
  indices <- _longest_pair_indices edges ;;
  '(i, j) <- unpack2 indices ;;
  e_i <- getitem edges i ;;
  l_i <- _length e_i ;;
  e_j <- getitem edges j ;;
  l_j <- _length e_j ;;
  if (abs (l_i + l_j) =? 0)%float then Raise ZeroDivisionError
  else Ok (abs (l_i - l_j) / abs (l_i + l_j) <? tenth)%float.

Definition _get_shared_vertex (edge_a edge_b : edge) : option vertex :=
  let in_b (vertex_a : vertex) :=
    vertex_eqb vertex_a (fst edge_b) || vertex_eqb vertex_a (snd edge_b) in
  if in_b (fst edge_a) then Some (fst edge_a)
  else if in_b (snd edge_a) then Some (snd edge_a)
  else None.

Definition _get_other_vertex (v : vertex) (e : edge) : option vertex :=
  if negb (vertex_eqb (fst e) v) then Some (fst e)
  else if negb (vertex_eqb (snd e) v) then Some (snd e)
  else None.

(** With no shared vertex [x_corner] is [None] and [-x_corner] raises
    TypeError; with an edge whose two ends are the corner, [c] or [d] is
    [None] and [np.add] raises it. The test of line 145 multiplies and
    subtracts [np.int32] components. *)
Definition _get_finder_pattern (edges : list edge) : result FinderPattern :=
  indices <- _longest_pair_indices edges ;;
  '(i, j) <- unpack2 indices ;;
  e_i <- getitem edges i ;;
  e_j <- getitem edges j ;;
  match _get_shared_vertex e_i e_j with
  | None => Raise TypeError
  | Some x_corner =>
      match _get_other_vertex x_corner e_i, _get_other_vertex x_corner e_j with
      | Some c, Some d =>
          let vec_c := np_add (np_negative x_corner) c in
          let vec_d := np_add (np_negative x_corner) d in
          if (int32_sub (int32_mul (fst vec_c) (snd vec_d))
                        (int32_mul (snd vec_c) (fst vec_d)) <? 0)%Z
          then Ok (mkFinderPattern x_corner vec_c vec_d)
          else Ok (mkFinderPattern x_corner vec_d vec_c)
      | _, _ => Raise TypeError
      end
  end.

(** The four chained [filter]s: an edge set meets a filter only after it
    passed the ones before it. *)
Definition cascade : list (list edge -> result bool) :=
  [ (fun es => Ok (_filter_non_trivial es));
    _filter_longest_adjacent;
    _filter_longest_approx_orthogonal;
    _filter_longest_similar_in_length ].

Fixpoint passes (filters : list (list edge -> result bool)) (es : list edge)
  : result bool :=
  match filters with
  | [] => Ok true
  | f :: filters' =>
      keep <- f es ;;
      if keep then passes filters' es else Ok false
  end.

(** Lines 34-40 of [locate_datamatrices]: the list comprehension draws the
    edge sets one by one through the filters and [_get_finder_pattern]; an
    exception ends the call. *)
Fixpoint extract_patterns (edge_sets : list (list edge))
  : result (list FinderPattern) :=
  match edge_sets with
  | [] => Ok []
  | es :: rest =>
      keep <- passes cascade es ;;
      if keep then
        fp <- _get_finder_pattern es ;;
        fps <- extract_patterns rest ;;
        Ok (fp :: fps)
      else extract_patterns rest
  end.

(** Lines 31-40: [map] and the [filter]s are lazy, so each contour is turned
    into its edge set, filtered and used before the next one is looked at. *)
Fixpoint finder_patterns (contour_vertex_sets : list (list vertex))
  : result (list FinderPattern) :=
  match contour_vertex_sets with
  | [] => Ok []
  | vs :: rest =>
      es <- _convert_to_edge_set vs ;;
      keep <- passes cascade es ;;
      if keep then
        fp <- _get_finder_pattern es ;;
        fps <- finder_patterns rest ;;
        Ok (fp :: fps)
      else finder_patterns rest
  end.

End Locator.

(** ** Example contours *)

(** A square with a notch cut from its far corner and a step on its left side:
    eight vertices; the two longest sides, of 40 and 35, meet at the origin. *)
Definition notched_square : list vertex :=
  [(0, 0); (40, 0); (40, 30); (30, 30); (30, 40); (10, 40); (10, 35); (0, 35)]%Z.

(** The scenario-A square. *)
Definition plain_square : list vertex :=
  [(0, 0); (10, 0); (10, 10); (0, 10)]%Z.

(** The edge set of an example contour. *)
Definition edges_of (vs : list vertex) : list edge :=
  match _convert_to_edge_set vs with
  | Ok es => es
  | Raise _ => []
  end.

(** Two long sides that leave (65537, 362) almost on top of each other, and a
    short way back along the left border: the square of 65537 is 131073 once
    wrapped, about the square of 362. *)
Definition folded_contour : list vertex :=
  [(0, 0); (65537, 362); (0, 725); (10, 580); (0, 435); (10, 290); (0, 145)]%Z.

(** A side of 65536 by 256 and a side of 1 by 256 that meet at (1, 0), and a
    way back whose long step is 65536 wide: the square of 65536 is 0 once
    wrapped. *)
Definition lopsided_contour : list vertex :=
  [(65537, 256); (1, 0); (0, 256); (10, 300); (65546, 310); (65560, 290);
   (65550, 270)]%Z.

(** The edges of [notched_square] with the first one moved a unit to the
    right, so that it no longer touches the last one: not the edge set of any
    vertex list. *)
Definition broken_edges : list edge :=
  [ ((1, 0), (41, 0)); ((40, 0), (40, 30)); ((40, 30), (30, 30));
    ((30, 30), (30, 40)); ((30, 40), (10, 40)); ((10, 40), (10, 35));
    ((10, 35), (0, 35)); ((0, 35), (0, 0)) ]%Z.

(** ** Images, the heap and the OpenCV primitives *)

(** An image is a grid of intensity samples; a raw contour a list of points. *)
Definition image : Type := list (list Z).
Definition contour : Type := list vertex.

(** The calls made to OpenCV, in order; images are named by their address. *)
Inductive call : Type :=
| AdaptiveThreshold (src : nat) (blocksize : Z) (C : float)
| GetStructuringElement (ksize : Z)
| MorphologyEx (src kernel : nat)
| FindContours (img : nat)
| ApproxPolyDP (curve : contour).

(** The image arrays that exist, and the calls made so far. The arrays of
    points that the tracer and [approxPolyDP] return are values, read by the
    locator and never written to. *)
Record world : Type := mkWorld {
  heap : list image;
  calls : list call
}.

(** A computation reads and updates the world; an exception keeps the world
    reached when it was raised. *)
Definition cv (A : Type) : Type := world -> result A * world.

Definition ret {A : Type} (a : A) : cv A := fun w => (Ok a, w).

Definition throw {A : Type} (e : exn) : cv A := fun w => (Raise e, w).

Definition cv_bind {A B : Type} (m : cv A) (k : A -> cv B) : cv B :=
  fun w =>
    match m w with
    | (Ok a, w') => k a w'
    | (Raise e, w') => (Raise e, w')
    end.

Definition lift {A : Type} (r : result A) : cv A := fun w => (r, w).

Declare Scope cv_scope.
Delimit Scope cv_scope with cv.
Notation "x <~ m ;; k" := (cv_bind m (fun x => k))
  (at level 61, m at next level, right associativity) : cv_scope.
Notation "m ;;; k" := (cv_bind m (fun _ => k))
  (at level 61, right associativity) : cv_scope.
Open Scope cv_scope.

(** A new array, placed after the ones that exist. *)
Definition alloc (img : image) : cv nat :=
  fun w => (Ok (length (heap w)), mkWorld (heap w ++ [img]) (calls w)).

(** The pixels of an array; for an argument that is no array the primitive
    raises [not_an_array]. *)
Definition load (not_an_array : exn) (a : nat) : cv image :=
  fun w =>
    match nth_error (heap w) a with
    | Some img => (Ok img, w)
    | None => (Raise not_an_array, w)
    end.

(** A list comprehension over calls. *)
Fixpoint cv_map (A B : Type) (f : A -> cv B) (xs : list A) : cv (list B) :=
  match xs with
  | [] => ret []
  | x :: xs' =>
      y <~ f x ;;
      ys <~ cv_map f xs' ;;
      ret (y :: ys)
  end.

Fixpoint update (A : Type) (xs : list A) (n : nat) (x : A) : list A :=
  match xs, n with
  | [], _ => []
  | _ :: xs', O => x :: xs'
  | y :: xs', S n' => y :: update xs' n' x
  end.

(** Overwriting the pixels of an array in place. *)
Definition store (a : nat) (img : image) : cv unit :=
  fun w => (Ok tt, mkWorld (update (heap w) a img) (calls w)).

Definition record (c : call) : cv unit :=
  fun w => (Ok tt, mkWorld (heap w) (calls w ++ [c])).

(** [frame n m Q]: run in a world with at least [n] arrays, [m] leaves the
    first [n] as they were, removes none, and a value it returns
    satisfies [Q]. *)
Definition frame (A : Type) (n : nat) (m : cv A) (Q : A -> Prop) : Prop :=
  forall w, n <= length (heap w) ->
    firstn n (heap (snd (m w))) = firstn n (heap w) /\
    n <= length (heap (snd (m w))) /\
    forall a, fst (m w) = Ok a -> Q a.

Section OpenCV.

(** What the primitives compute from pixels and points. [px_findContours] also
    gives the pixels the tracer leaves in the image it was handed.
    [not_an_array] is what the binding raises for an image argument that is no
    array: TypeError in OpenCV 2 and 3, [cv2.error] in OpenCV 4. *)
Variable px_adaptiveThreshold : image -> Z -> float -> result image.
Variable px_getStructuringElement : Z -> result image.
Variable px_morphologyEx : image -> image -> result image.
Variable px_findContours : image -> result (image * list contour).
Variable px_approxPolyDP : contour -> result (list vertex).
Variable not_an_array : exn.

Definition adaptiveThreshold (src : nat) (blocksize : Z) (C : float) : cv nat :=
  record (AdaptiveThreshold src blocksize C) ;;;
  px <~ load not_an_array src ;;
  dst <~ lift (px_adaptiveThreshold px blocksize C) ;;
  alloc dst.

Definition getStructuringElement (ksize : Z) : cv nat :=
  record (GetStructuringElement ksize) ;;;
  element <~ lift (px_getStructuringElement ksize) ;;
  alloc element.

Definition morphologyEx (src kernel : nat) : cv nat :=
  record (MorphologyEx src kernel) ;;;
  px <~ load not_an_array src ;;
  k <~ load not_an_array kernel ;;
  dst <~ lift (px_morphologyEx px k) ;;
  alloc dst.

(** [cv2.findContours] traces in the image it is given and may overwrite
    it. *)
Definition findContours (img : nat) : cv (list contour) :=
  record (FindContours img) ;;;
  px <~ load not_an_array img ;;
  r <~ lift (px_findContours px) ;;
  store img (fst r) ;;;
  ret (snd r).

(** [cv2.approxPolyDP(rc, 6.0, True).reshape(-1, 2)] *)
Definition approxPolyDP (rc : contour) : cv (list vertex) :=
  record (ApproxPolyDP rc) ;;;
  lift (px_approxPolyDP rc).

(** [arr.copy()] *)
Definition copy (arr : nat) : cv nat :=
  px <~ load not_an_array arr ;;
  alloc px.

Definition _do_morph (gray : nat) (blocksize : Z) (C : float) (morphsize : Z)
  : cv nat :=
  thresh <~ adaptiveThreshold gray blocksize C ;;
  element <~ getStructuringElement morphsize ;;
  morphologyEx thresh element.

(** Both branches on [OPENCV_MAJOR] make the same call and differ in the
    shape of the tuple it returns. *)
Definition _get_contours (arr : nat) : cv (list (list vertex)) :=
  c <~ copy arr ;;
  raw_contours <~ findContours c ;;
  cv_map approxPolyDP raw_contours.

Variable argsort : list float -> list nat.

Definition locate_datamatrices (gray_img : nat) (blocksize : Z) (C : float)
    (close_size : Z) : cv (list FinderPattern) :=
  morphed_image <~ _do_morph gray_img blocksize C close_size ;;
  contour_vertex_sets <~ _get_contours morphed_image ;;
  lift (finder_patterns argsort contour_vertex_sets).

(** What [locate_datamatrices] returns, read off the pixels of its input
    alone ([None]: the argument is no array). *)
Definition locate_outcome (gray : option image) (blocksize : Z) (C : float)
    (close_size : Z) : result (list FinderPattern) :=
  match gray with
  | None => Raise not_an_array
  | Some px =>
      thresh <- px_adaptiveThreshold px blocksize C ;;
      element <- px_getStructuringElement close_size ;;
      morphed <- px_morphologyEx thresh element ;;
      r <- px_findContours morphed ;;
      contour_vertex_sets <- result_map px_approxPolyDP (snd r) ;;
      finder_patterns argsort contour_vertex_sets
  end.

End OpenCV.

(** ** A stand-in for OpenCV

    Enough of OpenCV to run the locator on an example: the argument checks of
    [adaptiveThreshold] (an odd block size above 1) and of
    [getStructuringElement] (a positive size), images passed through as they
    are, and a tracer that finds the notched square in any image and blanks
    the image it traced. *)

Definition stub_adaptiveThreshold (px : image) (blocksize : Z) (C : float)
  : result image :=
  if Z.odd blocksize && (1 <? blocksize)%Z then Ok px else Raise CvError.

Definition stub_getStructuringElement (ksize : Z) : result image :=
  if (0 <? ksize)%Z then Ok [[1%Z]] else Raise CvError.

Definition stub_morphologyEx (px kernel : image) : result image := Ok px.

Definition stub_findContours (px : image) : result (image * list contour) :=
  Ok (map (map (fun _ => 0%Z)) px, [notched_square]).

Definition stub_approxPolyDP (c : contour) : result (list vertex) := Ok c.

Definition stub_locate : nat -> Z -> float -> Z -> cv (list FinderPattern) :=
  locate_datamatrices stub_adaptiveThreshold stub_getStructuringElement
    stub_morphologyEx stub_findContours stub_approxPolyDP CvError np_argsort.

(** A world holding one 2x2 image at address 0. *)
Definition one_image : world := mkWorld [[[10; 200]; [200; 10]]%Z] [].

(** ** Reversing edges *)

(** The same edge walked the other way. *)
Definition reverse_edge (e : edge) : edge := (snd e, fst e).

(** [e'] is [e], in one direction or the other. *)
Definition same_edge (e e' : edge) : Prop := e' = e \/ e' = reverse_edge e.

(** ** Python sequences with integer indices *)

(** [range(start, stop)] *)
Definition py_range (start stop : Z) : list Z :=
  map (fun k => (start + Z.of_nat k)%Z) (seq 0 (Z.to_nat (stop - start))).

(** [xs[i]]: an index below zero counts from the end. *)
Definition py_getitem (A : Type) (xs : list A) (i : Z) : result A :=
  let n := Z.of_nat (length xs) in
  if (0 <=? i)%Z && (i <? n)%Z then getitem xs (Z.to_nat i)
  else if (- n <=? i)%Z && (i <? 0)%Z then getitem xs (Z.to_nat (n + i))
  else Raise IndexError.

(** ** The sample plate of [dls_barcode.plate] *)

Module Plate.
Section Model.

(** The class [Slot] and the two symbols of [slot.py], and [Geometry], are
    outside the files at hand: a plate is stated over any of them. A slot is
    taken as the value its accessors show at the time of the call. *)
Variable Slot : Type.
Variable State : Type.
Variable Geometry : Type.
Variable new_Slot : Z -> Slot.                       (* [Slot(i)] *)
Variable state : Slot -> State.                      (* [slot.state()] *)
Variable barcode_data : Slot -> String.string.       (* [slot.barcode_data()] *)
Variable State_eqb : State -> State -> bool.         (* [==] on states *)
Variable VALID EMPTY : State.                        (* [Slot.VALID], [Slot.EMPTY] *)
Variable EMPTY_SLOT_SYMBOL NOT_FOUND_SLOT_SYMBOL : String.string.
Variable get_num_slots : String.string -> Z.         (* [Geometry.get_num_slots] *)

Record Plate : Type := mkPlate {
  id : String.string;
  num_slots : Z;
  type : String.string;
  _geometry : option Geometry;
  _slots : list Slot
}.

(** [Plate(geometry_name, num_slots)]; [uuid] is the string that
    [str(uuid.uuid1())] gives, and [num_slots] is -1 when left out. *)
Definition __init__ (uuid : String.string) (geometry_name : String.string)
    (num_slots : Z) : Plate :=
  let n := if (num_slots =? -1)%Z then get_num_slots geometry_name
           else num_slots in
  mkPlate uuid n geometry_name None (map new_Slot (py_range 1 (n + 1))).

Definition slot (p : Plate) (i : Z) : result Slot :=
  py_getitem (_slots p) (i - 1).

Definition slots (p : Plate) : list Slot := _slots p.

Definition barcodes (p : Plate) : list String.string :=
  map barcode_data (_slots p).

Definition geometry (p : Plate) : option Geometry := _geometry p.

Definition invalid_slots (p : Plate) : list Slot :=
  filter (fun s => negb (State_eqb (state s) VALID)) (_slots p).

Definition num_empty_slots (p : Plate) : Z :=
  Z.of_nat (length (filter (fun s => State_eqb (state s) EMPTY) (_slots p))).

Definition num_valid_barcodes (p : Plate) : Z :=
  Z.of_nat (length (filter (fun s => State_eqb (state s) VALID) (_slots p))).

Definition num_unread_barcodes (p : Plate) : Z :=
  (num_slots p - num_valid_barcodes p - num_empty_slots p)%Z.

Definition is_full_valid (p : Plate) : bool :=
  (num_valid_barcodes p + num_empty_slots p =? num_slots p)%Z.

Definition contains_barcode (p : Plate) (barcode : String.string) : bool :=
  if String.eqb barcode EMPTY_SLOT_SYMBOL
     || String.eqb barcode NOT_FOUND_SLOT_SYMBOL
  then false
  else existsb (fun b => String.eqb b barcode) (barcodes p).

(** The loop of [has_slots_in_common] from position [i] of [enumerate]:
    the slot of [plate_b] is fetched before the state of [slot_a] is looked
    at. *)
Fixpoint common_from (i : nat) (slots_a : list Slot) (plate_b : Plate)
  : result bool :=
  match slots_a with
  | [] => Ok false
  | slot_a :: rest =>
      slot_b <- slot plate_b (Z.of_nat i + 1) ;;
      if State_eqb (state slot_a) VALID
         && String.eqb (barcode_data slot_a) (barcode_data slot_b)
      then Ok true
      else common_from (S i) rest plate_b
  end.

Definition has_slots_in_common (plate_a plate_b : Plate) : result bool :=
  if negb (String.eqb (type plate_a) (type plate_b)) then Ok false
  else common_from 0 (_slots plate_a) plate_b.

End Model.
End Plate.

(** * Properties *)

(** ** 32-bit arithmetic *)

Lemma wrap32_range (z : Z) :
  (-2147483648 <= wrap32 z < 2147483648)%Z.
Proof.
  unfold wrap32.
  pose proof (Z.mod_pos_bound (z + 2147483648) 4294967296). lia.
Qed.

Lemma wrap32_small (z : Z) :
  (-2147483648 <= z < 2147483648)%Z -> wrap32 z = z.
Proof.
  intros Hz. unfold wrap32. rewrite Z.mod_small by lia. lia.
Qed.

Lemma wrap32_eqm (z : Z) : exists k : Z, wrap32 z = (z + k * 4294967296)%Z.
Proof.
  unfold wrap32. exists (- ((z + 2147483648) / 4294967296))%Z.
  pose proof (Z.div_mod (z + 2147483648) 4294967296). lia.
Qed.

Lemma wrap32_shift (z k : Z) : wrap32 (z + k * 4294967296) = wrap32 z.
Proof.
  unfold wrap32.
  replace (z + k * 4294967296 + 2147483648)%Z
    with (z + 2147483648 + k * 4294967296)%Z by lia.
  now rewrite Z.mod_add by lia.
Qed.

Lemma wrap32_add (a b : Z) : wrap32 (wrap32 a + wrap32 b) = wrap32 (a + b).
Proof.
  destruct (wrap32_eqm a) as [k ->], (wrap32_eqm b) as [l ->].
  replace (a + k * 4294967296 + (b + l * 4294967296))%Z
    with (a + b + (k + l) * 4294967296)%Z by lia.
  apply wrap32_shift.
Qed.

Lemma wrap32_sub (a b : Z) : wrap32 (wrap32 a - wrap32 b) = wrap32 (a - b).
Proof.
  destruct (wrap32_eqm a) as [k ->], (wrap32_eqm b) as [l ->].
  replace (a + k * 4294967296 - (b + l * 4294967296))%Z
    with (a - b + (k - l) * 4294967296)%Z by lia.
  apply wrap32_shift.
Qed.

(** The opposite of a 32-bit integer, with the one value that has none. *)
Lemma wrap32_opp (z : Z) :
  wrap32 (- z) = (- wrap32 z)%Z
  \/ (wrap32 (- z) = (-2147483648)%Z /\ wrap32 z = (-2147483648)%Z).
Proof.
  destruct (wrap32_eqm z) as [k Hk].
  pose proof (wrap32_range z) as Hr.
  destruct (Z.eq_dec (wrap32 z) (-2147483648)) as [He|Hne].
  - right. split; [|assumption].
    replace (- z)%Z with (-2147483648 + (k + 1) * 4294967296)%Z by lia.
    rewrite wrap32_shift. reflexivity.
  - left.
    replace (- z)%Z with (- wrap32 z + k * 4294967296)%Z by lia.
    rewrite wrap32_shift. apply wrap32_small. lia.
Qed.

Lemma int32_mul_opp (a : Z) : int32_mul (- a) (- a) = int32_mul a a.
Proof. unfold int32_mul. f_equal. lia. Qed.

Lemma np_dot_exact (a b : vector) :
  np_dot a b = wrap32 (fst a * fst b + snd a * snd b).
Proof. unfold np_dot, int32_add, int32_mul. apply wrap32_add. Qed.

Lemma modulus_exact (v : vector) :
  _modulus v = math_sqrt (wrap32 (fst v * fst v + snd v * snd v)).
Proof.
  unfold _modulus, quadrature_add. cbn [map fold_left].
  unfold int32_add, int32_mul. now rewrite wrap32_add.
Qed.

(** The only exception of a length is the ValueError of [math.sqrt]. *)
Lemma modulus_outcome (v : vector) :
  (exists l, _modulus v = Ok l) \/ _modulus v = Raise ValueError.
Proof.
  rewrite modulus_exact. unfold math_sqrt.
  destruct (_ <? 0)%Z; eauto.
Qed.

Lemma length_outcome (e : edge) :
  (exists l, _length e = Ok l) \/ _length e = Raise ValueError.
Proof. apply modulus_outcome. Qed.

(** Vectors of components up to 32767: their products and the sums and
    differences of two of these fit in 32 bits. *)
Lemma small_bounds (v : vector) :
  small v = true ->
  (-32767 <= fst v <= 32767)%Z /\ (-32767 <= snd v <= 32767)%Z.
Proof.
  unfold small. rewrite andb_true_iff, !Z.leb_le. lia.
Qed.

Lemma small_negative (v : vector) : small (np_negative v) = small v.
Proof. unfold small, np_negative. cbn [fst snd]. now rewrite !Z.abs_opp. Qed.

Lemma small_same_line (a b : vector) :
  same_line a b -> small a = small b.
Proof. intros [->| ->]; [reflexivity|apply small_negative]. Qed.

Lemma cross_small (a b : vector) :
  small a = true -> small b = true -> wrap32 (cross a b) = cross a b.
Proof.
  intros Ha Hb. apply small_bounds in Ha, Hb. apply wrap32_small.
  unfold cross. nia.
Qed.

Lemma dot_small (a b : vector) :
  small a = true -> small b = true -> np_dot a b = dot a b.
Proof.
  intros Ha Hb. apply small_bounds in Ha, Hb. rewrite np_dot_exact.
  apply wrap32_small. unfold dot. nia.
Qed.

Lemma modulus_small (a : vector) :
  small a = true -> _modulus a = Ok (sqrt (float_of_Z (norm2 a))).
Proof.
  intros Ha. apply small_bounds in Ha. rewrite modulus_exact.
  rewrite wrap32_small by nia.
  unfold math_sqrt, norm2, dot.
  destruct (Z.ltb_spec (fst a * fst a + snd a * snd a) 0); [nia|reflexivity].
Qed.

(** An edge of an image of at most 32768 by 32768 has a small vector. *)
Lemma edge_in_frame_small (e : edge) :
  edge_in_frame e = true -> small (np_subtract (fst e) (snd e)) = true.
Proof.
  unfold edge_in_frame, in_frame, small, np_subtract. cbn [fst snd].
  rewrite !andb_true_iff, !Z.leb_le. lia.
Qed.

Lemma length_in_frame (e : edge) :
  edge_in_frame e = true -> exists l, _length e = Ok l.
Proof.
  intros He. apply edge_in_frame_small in He.
  unfold _length, _distance. rewrite (modulus_small _ He). eauto.
Qed.

(** On pixel positions the subtraction, the negation and the addition of
    [-x_corner] stay within 32 bits: they are what numpy computes. *)
Lemma pixel_arithmetic_fits (a b : vertex) :
  pixel a -> pixel b ->
  wrap32 (fst (np_subtract a b)) = fst (np_subtract a b) /\
  wrap32 (snd (np_subtract a b)) = snd (np_subtract a b) /\
  wrap32 (fst (np_negative a)) = fst (np_negative a) /\
  wrap32 (snd (np_negative a)) = snd (np_negative a) /\
  wrap32 (fst (np_add (np_negative a) b)) = fst (np_add (np_negative a) b) /\
  wrap32 (snd (np_add (np_negative a) b)) = snd (np_add (np_negative a) b).
Proof.
  unfold pixel, np_subtract, np_negative, np_add. cbn [fst snd].
  intros [Ha1 Ha2] [Hb1 Hb2].
  repeat split; apply wrap32_small; lia.
Qed.

(** ** [list(map(f, xs))] *)

Section ResultMap.
Variables A B : Type.
Variable f : A -> result B.

Lemma result_map_length (xs : list A) (ys : list B) :
  result_map f xs = Ok ys -> length ys = length xs.
Proof.
  revert ys. induction xs as [|x xs IH]; intros ys; cbn [result_map].
  - now intros [= <-].
  - destruct (f x) as [y|]; cbn [bind]; [|discriminate].
    destruct (result_map f xs) as [ys'|]; cbn [bind]; [|discriminate].
    intros [= <-]. simpl. now rewrite (IH ys').
Qed.

Lemma result_map_nth (xs : list A) (ys : list B) (i : nat) (x : A) :
  result_map f xs = Ok ys -> nth_error xs i = Some x ->
  exists y, f x = Ok y /\ nth_error ys i = Some y.
Proof.
  revert ys i. induction xs as [|x' xs IH]; intros ys i; cbn [result_map].
  - destruct i; discriminate.
  - destruct (f x') as [y|] eqn:Hy; cbn [bind]; [|discriminate].
    destruct (result_map f xs) as [ys'|]; cbn [bind]; [|discriminate].
    intros [= <-]. destruct i as [|i]; simpl.
    + intros [= <-]. eauto.
    + now apply IH.
Qed.

Lemma result_map_raise (xs : list A) (e : exn) :
  result_map f xs = Raise e -> exists x, In x xs /\ f x = Raise e.
Proof.
  induction xs as [|x xs IH]; cbn [result_map]; [discriminate|].
  destruct (f x) as [y|e'] eqn:Hy; cbn [bind].
  - destruct (result_map f xs) as [ys'|e'']; cbn [bind]; [discriminate|].
    intros [= <-]. destruct (IH eq_refl) as (x' & Hin & Hx').
    exists x'. simpl. auto.
  - intros [= <-]. exists x. simpl. auto.
Qed.

Lemma result_map_total (xs : list A) :
  (forall x, In x xs -> exists y, f x = Ok y) ->
  exists ys, result_map f xs = Ok ys.
Proof.
  induction xs as [|x xs IH]; intros Hall; cbn [result_map]; [eauto|].
  destruct (Hall x) as [y ->]; [simpl; auto|].
  destruct IH as [ys ->]; [intros x' Hx'; apply Hall; simpl; auto|].
  simpl. eauto.
Qed.

Lemma result_map_app (xs xs' : list A) :
  result_map f (xs ++ xs')
  = (ys <- result_map f xs ;; ys' <- result_map f xs' ;; Ok (ys ++ ys')).
Proof.
  induction xs as [|x xs IH]; cbn [app result_map bind].
  - destruct (result_map f xs'); reflexivity.
  - destruct (f x) as [y|]; cbn [bind]; [|reflexivity].
    rewrite IH. destruct (result_map f xs) as [ys|]; cbn [bind]; [|reflexivity].
    destruct (result_map f xs'); reflexivity.
Qed.

End ResultMap.

(** ** The Edge-Set Builder pairs each vertex with its successor *)

Section PairsCircularFacts.
Variable A : Type.

Lemma pairs_loop_bound (zeroth x : A) (it : list A) :
  pairs_loop zeroth x (Some x) it = combine (x :: it) (it ++ [zeroth]).
Proof.
  revert x. induction it as [|y it IH]; intros x; simpl.
  - reflexivity.
  - now rewrite IH.
Qed.

Lemma pairs_circular_two (v0 v1 : A) (rest : list A) :
  _pairs_circular (v0 :: v1 :: rest)
  = Ok (combine (v0 :: v1 :: rest) ((v1 :: rest) ++ [v0])).
Proof.
  unfold _pairs_circular. simpl. now rewrite pairs_loop_bound.
Qed.

Lemma pairs_circular_ok (vs : list A) :
  vs <> [] -> exists es, _pairs_circular vs = Ok es.
Proof. destruct vs; [congruence|]. simpl. eauto. Qed.

Lemma nth_error_rotate (v0 : A) (rest : list A) (k : nat) :
  k <= length rest ->
  nth_error (rest ++ [v0]) k = nth_error (v0 :: rest) (S k mod S (length rest)).
Proof.
  intros Hk. destruct (Nat.eq_dec k (length rest)) as [->|Hne].
  - rewrite Nat.Div0.mod_same. rewrite nth_error_app2 by lia.
    now rewrite Nat.sub_diag.
  - rewrite Nat.mod_small by lia. simpl.
    apply nth_error_app1. lia.
Qed.

Lemma nth_error_combine (B : Type) (l1 : list A) (l2 : list B) (k : nat) a b :
  nth_error l1 k = Some a -> nth_error l2 k = Some b ->
  nth_error (combine l1 l2) k = Some (a, b).
Proof.
  revert l2 k. induction l1 as [|x l1 IH]; intros [|y l2] [|k]; simpl;
    try discriminate.
  - now intros [= ->] [= ->].
  - apply IH.
Qed.

Lemma pairs_circular_length (vs : list A) (es : list (A * A)) :
  2 <= length vs -> _pairs_circular vs = Ok es -> length es = length vs.
Proof.
  destruct vs as [|v0 [|v1 rest]]; simpl; try lia. intros _.
  change (_pairs_circular (v0 :: v1 :: rest) = Ok es ->
          length es = S (S (length rest))).
  rewrite pairs_circular_two. intros [= <-].
  change (length (combine (v0 :: v1 :: rest) ((v1 :: rest) ++ [v0]))
          = S (S (length rest))).
  rewrite length_combine.
  cbn [length app]. rewrite length_app. cbn [length]. lia.
Qed.

(** Edge [k] runs from vertex [k] to the vertex after it, circularly. *)
Lemma pairs_circular_nth (vs : list A) (es : list (A * A)) (k : nat) :
  2 <= length vs -> _pairs_circular vs = Ok es -> k < length vs ->
  exists a b,
    nth_error vs k = Some a /\
    nth_error vs (S k mod length vs) = Some b /\
    nth_error es k = Some (a, b).
Proof.
  intros Hn Hes Hk.
  destruct vs as [|v0 [|v1 rest]]; simpl in Hn; try lia.
  rewrite pairs_circular_two in Hes.
  assert (Hes' : es = combine (v0 :: v1 :: rest) ((v1 :: rest) ++ [v0]))
    by congruence.
  subst es. clear Hes.
  set (vs := v0 :: v1 :: rest) in *.
  destruct (nth_error vs k) as [a|] eqn:Ha.
  2:{ apply nth_error_None in Ha. lia. }
  assert (Hrot : nth_error ((v1 :: rest) ++ [v0]) k
                 = nth_error vs (S k mod length vs)).
  { apply (nth_error_rotate v0 (v1 :: rest)). subst vs. simpl in *. lia. }
  destruct (nth_error vs (S k mod length vs)) as [b|] eqn:Hb.
  2:{ apply nth_error_None in Hb.
      pose proof (Nat.mod_upper_bound (S k) (length vs)). lia. }
  exists a, b. repeat split.
  apply nth_error_combine; assumption.
Qed.
End PairsCircularFacts.

Lemma edges_of_ok (vs : list vertex) (es : list edge) :
  _convert_to_edge_set vs = Ok es -> edges_of vs = es.
Proof. unfold edges_of. now intros ->. Qed.

(** C4. For vertices [v0..v(n-1)] with [n >= 2] the Edge-Set Builder returns
    the [n] edges [(v0,v1), (v1,v2), ..., (v(n-1),v0)]: edge [k] joins vertex
    [k] to vertex [k+1 mod n], and its head is the tail of edge [k+1 mod n].
    For [n = 1] it returns no edge. For [n = 0] it returns nothing: the
    [next] of line 75 finds nothing and the call raises RuntimeError. *)
Theorem C4_edge_set_builder :
  _convert_to_edge_set [] = Raise RuntimeError
  /\ (forall v : vertex, _convert_to_edge_set [v] = Ok [])
  /\ (forall vs : list vertex, 2 <= length vs ->
      exists es,
        _convert_to_edge_set vs = Ok es /\
        es = combine vs (tl vs ++ firstn 1 vs) /\
        length es = length vs /\
        forall k, k < length vs ->
          exists a b c,
            nth_error vs k = Some a /\
            nth_error vs (S k mod length vs) = Some b /\
            nth_error es k = Some (a, b) /\
            nth_error es (S k mod length vs) = Some (b, c)).
Proof.
  unfold _convert_to_edge_set.
  split; [reflexivity|]. split; [reflexivity|].
  intros vs Hn.
  destruct (@pairs_circular_ok vertex vs) as [es Hes].
  { destruct vs; simpl in Hn; [lia|discriminate]. }
  exists es. split; [exact Hes|]. split.
  { destruct vs as [|v0 [|v1 rest]]; simpl in Hn; try lia.
    rewrite pairs_circular_two in Hes. cbn [tl firstn]. congruence. }
  split; [now apply (pairs_circular_length vs Hn)|].
  intros k Hk.
  destruct (pairs_circular_nth vs Hn Hes Hk) as (a & b & Ha & Hb & Hab).
  assert (Hk' : S k mod length vs < length vs)
    by (apply Nat.mod_upper_bound; lia).
  destruct (pairs_circular_nth vs Hn Hes Hk') as (b' & c & Hb' & _ & Hbc).
  rewrite Hb in Hb'. injection Hb' as <-.
  exists a, b, c. repeat split; assumption.
Qed.

Lemma C4_edge_set_builder_witness :
  let vs := [(0, 0); (10, 0); (10, 10); (0, 10)]%Z in
  exists es,
    _convert_to_edge_set vs = Ok es /\
    es = combine vs (tl vs ++ firstn 1 vs) /\
    length es = length vs /\
    forall k, k < length vs ->
      exists a b c,
        nth_error vs k = Some a /\
        nth_error vs (S k mod length vs) = Some b /\
        nth_error es k = Some (a, b) /\
        nth_error es (S k mod length vs) = Some (b, c).
Proof.
  intros vs.
  apply (proj2 (proj2 C4_edge_set_builder) vs).
  simpl. lia.
Defined.

(** ** The stable argsort is an argsort *)

Lemma insert_index_perm (keys : list float) (i : nat) (sorted : list nat) :
  Permutation (insert_index keys i sorted) (i :: sorted).
Proof.
  induction sorted as [|j rest IH]; simpl.
  - apply Permutation_refl.
  - destruct (key_at keys i <? key_at keys j)%float.
    + apply Permutation_refl.
    + eapply perm_trans; [apply perm_skip, IH|apply perm_swap].
Qed.

Lemma fold_insert_index_perm (keys : list float) (todo acc : list nat) :
  Permutation (fold_left (fun acc i => insert_index keys i acc) todo acc)
              (acc ++ todo).
Proof.
  revert acc. induction todo as [|i todo IH]; intros acc; simpl.
  - rewrite app_nil_r. apply Permutation_refl.
  - eapply perm_trans; [apply IH|].
    eapply perm_trans;
      [apply Permutation_app_tail, insert_index_perm|].
    simpl. apply Permutation_middle.
Qed.

Lemma np_argsort_perm (keys : list float) :
  Permutation (np_argsort keys) (seq 0 (length keys)).
Proof. apply (fold_insert_index_perm keys (seq 0 (length keys)) []). Qed.

(** ** What any argsort gives the locator *)

Section LocatorFacts.

Variable argsort : list float -> list nat.
Hypothesis argsort_perm :
  forall keys, Permutation (argsort keys) (seq 0 (length keys)).

Lemma argsort_length (keys : list float) :
  length (argsort keys) = length keys.
Proof.
  rewrite (Permutation_length (argsort_perm keys)). apply length_seq.
Qed.

Lemma argsort_bound (keys : list float) (i : nat) :
  In i (argsort keys) -> i < length keys.
Proof.
  intros Hi. apply (Permutation_in _ (argsort_perm keys)) in Hi.
  apply in_seq in Hi. lia.
Qed.

Lemma argsort_NoDup (keys : list float) : NoDup (argsort keys).
Proof.
  apply (Permutation_NoDup (Permutation_sym (argsort_perm keys))).
  apply seq_NoDup.
Qed.

Lemma last_two_shape (A : Type) (xs : list A) :
  2 <= length xs ->
  exists a b, last_two xs = [a; b] /\ In a xs /\ In b xs /\
              (NoDup xs -> a <> b).
Proof.
  intros Hn. unfold last_two.
  pose proof (firstn_skipn (length xs - 2) xs) as Hsplit.
  assert (Hlen : length (skipn (length xs - 2) xs) = 2)
    by (rewrite length_skipn; lia).
  destruct (skipn (length xs - 2) xs) as [|a [|b [|c tl]]]; try discriminate.
  exists a, b. split; [reflexivity|].
  assert (Hin : forall x, In x [a; b] -> In x xs).
  { intros x Hx. rewrite <- Hsplit. apply in_or_app. now right. }
  split; [apply Hin; simpl; auto|].
  split; [apply Hin; simpl; auto|].
  intros Hnd. rewrite <- Hsplit in Hnd.
  apply NoDup_app_remove_l in Hnd.
  inversion Hnd as [|? ? Hnotin _]. intros ->. apply Hnotin. simpl. auto.
Qed.

(** The longest-pair computation raises nothing but the ValueError of the
    length of one of the edges. *)
Lemma longest_pair_indices_raise (edges : list edge) (x : exn) :
  _longest_pair_indices argsort edges = Raise x ->
  x = ValueError /\ exists e, In e edges /\ _length e = Raise ValueError.
Proof.
  unfold _longest_pair_indices.
  destruct (result_map _length edges) as [lengths|x'] eqn:Hl; cbn [bind];
    [discriminate|].
  intros [= <-]. apply result_map_raise in Hl.
  destruct Hl as (e & Hin & He).
  destruct (length_outcome e) as [[l Hok]|Hv]; [congruence|].
  assert (x' = ValueError) by congruence. subst x'. eauto.
Qed.

(** With two edges or more, the pair of indices it returns is in range, the
    two indices differ, and the lengths of the two edges were computed. *)
Lemma longest_pair_indices_shape (edges : list edge) (indices : list nat) :
  2 <= length edges ->
  _longest_pair_indices argsort edges = Ok indices ->
  exists i j e_i e_j l_i l_j,
    indices = [i; j] /\
    nth_error edges i = Some e_i /\ nth_error edges j = Some e_j /\
    _length e_i = Ok l_i /\ _length e_j = Ok l_j /\
    i < length edges /\ j < length edges /\ i <> j.
Proof.
  intros Hn. unfold _longest_pair_indices.
  destruct (result_map _length edges) as [keys|] eqn:Hl; cbn [bind];
    [|discriminate].
  intros [= <-].
  assert (Hk : length keys = length edges)
    by (now apply result_map_length in Hl).
  destruct (@last_two_shape nat (argsort keys)) as (a & b & Hab & Ha & Hb & Hne).
  { rewrite argsort_length. lia. }
  apply argsort_bound in Ha, Hb. rewrite Hk in Ha, Hb.
  destruct (nth_error edges b) as [e_b|] eqn:Eb.
  2:{ apply nth_error_None in Eb. lia. }
  destruct (nth_error edges a) as [e_a|] eqn:Ea.
  2:{ apply nth_error_None in Ea. lia. }
  destruct (result_map_nth _ _ _ Hl Eb) as (l_b & Hlb & _).
  destruct (result_map_nth _ _ _ Hl Ea) as (l_a & Hla & _).
  exists b, a, e_b, e_a, l_b, l_a. rewrite Hab. simpl.
  repeat split; try assumption.
  intros ->. now apply (Hne (argsort_NoDup keys)).
Qed.

(** In an image of at most 32768 by 32768 the lengths are all computed. *)
Lemma longest_pair_indices_in_frame (edges : list edge) :
  forallb edge_in_frame edges = true ->
  exists indices, _longest_pair_indices argsort edges = Ok indices.
Proof.
  intros Hf. rewrite forallb_forall in Hf. unfold _longest_pair_indices.
  destruct (@result_map_total edge float _length edges) as [lengths ->].
  { intros e He. apply length_in_frame. now apply Hf. }
  cbn [bind]. eauto.
Qed.

Lemma longest_pair_indices_short (edges : list edge) :
  length edges < 2 ->
  (indices <- _longest_pair_indices argsort edges ;; unpack2 indices)
  = Raise ValueError.
Proof.
  intros Hn.
  destruct (_longest_pair_indices argsort edges) as [indices|x] eqn:Hi;
    cbn [bind].
  - revert Hi. unfold _longest_pair_indices.
    destruct (result_map _length edges) as [keys|] eqn:Hl; cbn [bind];
      [|discriminate].
    intros [= <-].
    assert (Hk : length (argsort keys) = length edges)
      by (rewrite argsort_length; now apply result_map_length in Hl).
    unfold last_two.
    replace (length (argsort keys) - 2) with 0 by lia. simpl.
    destruct (argsort keys) as [|a [|b tl]]; simpl in *; try reflexivity; lia.
  - apply longest_pair_indices_raise in Hi. now destruct Hi as [-> _].
Qed.

Lemma non_trivial_iff (es : list edge) :
  _filter_non_trivial es = true <-> 6 < length es.
Proof. unfold _filter_non_trivial. apply Nat.ltb_lt. Qed.

(** The outcome of each later filter and of the extractor on an edge set
    with two edges or more whose lengths were computed. *)
Lemma filter_longest_adjacent_ok (edges : list edge) (indices : list nat) :
  2 <= length edges ->
  _longest_pair_indices argsort edges = Ok indices ->
  exists b, _filter_longest_adjacent argsort edges = Ok b.
Proof.
  intros Hn Hidx.
  destruct (longest_pair_indices_shape edges Hn Hidx)
    as (i & j & e_i & e_j & l_i & l_j & -> & _).
  unfold _filter_longest_adjacent. rewrite Hidx. simpl. eauto.
Qed.

Lemma filter_longest_approx_orthogonal_ok (edges : list edge)
    (indices : list nat) :
  2 <= length edges ->
  _longest_pair_indices argsort edges = Ok indices ->
  exists b, _filter_longest_approx_orthogonal argsort edges = Ok b.
Proof.
  intros Hn Hidx.
  destruct (longest_pair_indices_shape edges Hn Hidx)
    as (i & j & e_i & e_j & l_i & l_j & -> & Hi & Hj & Hli & Hlj & _).
  unfold _filter_longest_approx_orthogonal, getitem.
  rewrite Hidx. simpl. rewrite Hi, Hj. simpl.
  unfold _cosine. unfold _length, _distance in Hli, Hlj.
  rewrite Hli, Hlj. simpl. eauto.
Qed.

Lemma filter_longest_similar_in_length_ok (edges : list edge)
    (indices : list nat) :
  2 <= length edges ->
  _longest_pair_indices argsort edges = Ok indices ->
  (exists b, _filter_longest_similar_in_length argsort edges = Ok b)
  \/ _filter_longest_similar_in_length argsort edges = Raise ZeroDivisionError.
Proof.
  intros Hn Hidx.
  destruct (longest_pair_indices_shape edges Hn Hidx)
    as (i & j & e_i & e_j & l_i & l_j & -> & Hi & Hj & Hli & Hlj & _).
  unfold _filter_longest_similar_in_length, getitem.
  rewrite Hidx. simpl. rewrite Hi, Hj. simpl. rewrite Hli. simpl.
  rewrite Hlj. simpl.
  destruct (abs (l_i + l_j) =? 0)%float; eauto.
Qed.

Lemma get_finder_pattern_ok (edges : list edge) (indices : list nat) :
  2 <= length edges ->
  _longest_pair_indices argsort edges = Ok indices ->
  (exists fp, _get_finder_pattern argsort edges = Ok fp)
  \/ _get_finder_pattern argsort edges = Raise TypeError.
Proof.
  intros Hn Hidx.
  destruct (longest_pair_indices_shape edges Hn Hidx)
    as (i & j & e_i & e_j & l_i & l_j & -> & Hi & Hj & _).
  unfold _get_finder_pattern, getitem.
  rewrite Hidx. simpl. rewrite Hi, Hj. simpl.
  destruct (_get_shared_vertex e_i e_j) as [x|]; [|now right].
  destruct (_get_other_vertex x e_i), (_get_other_vertex x e_j);
    try (now right).
  destruct (_ <? 0)%Z; eauto.
Qed.

Lemma passes_cascade_short (es : list edge) :
  length es <= 6 -> passes (cascade argsort) es = Ok false.
Proof.
  intros Hn. simpl. unfold _filter_non_trivial.
  destruct (Nat.ltb_spec 6 (length es)); [lia|reflexivity].
Qed.

Lemma passes_cascade_true (es : list edge) :
  passes (cascade argsort) es = Ok true ->
  6 < length es /\
  _filter_longest_adjacent argsort es = Ok true /\
  _filter_longest_approx_orthogonal argsort es = Ok true /\
  _filter_longest_similar_in_length argsort es = Ok true.
Proof.
  simpl. unfold _filter_non_trivial.
  destruct (Nat.ltb_spec 6 (length es)) as [Hn|Hn]; [|discriminate].
  destruct (_filter_longest_adjacent argsort es) as [[|]|]; try discriminate.
  destruct (_filter_longest_approx_orthogonal argsort es) as [[|]|];
    try discriminate.
  destruct (_filter_longest_similar_in_length argsort es) as [[|]|];
    try discriminate.
  auto.
Qed.

(** An edge set that passed the filters had its pair of indices computed. *)
Lemma passes_cascade_indices (es : list edge) :
  passes (cascade argsort) es = Ok true ->
  exists indices, _longest_pair_indices argsort es = Ok indices.
Proof.
  intros Hp. apply passes_cascade_true in Hp.
  destruct Hp as (_ & Ha & _). revert Ha.
  unfold _filter_longest_adjacent.
  destruct (_longest_pair_indices argsort es) as [indices|]; cbn [bind];
    [eauto|discriminate].
Qed.

(** What the cascade can end in. *)
Lemma passes_cascade_outcome (es : list edge) :
  (exists b, passes (cascade argsort) es = Ok b)
  \/ passes (cascade argsort) es = Raise ZeroDivisionError
  \/ (passes (cascade argsort) es = Raise ValueError /\
      6 < length es /\
      exists e, In e es /\ _length e = Raise ValueError).
Proof.
  destruct (Nat.le_gt_cases (length es) 6) as [Hn|Hn].
  - rewrite passes_cascade_short by assumption. eauto.
  - simpl. unfold _filter_non_trivial.
    destruct (Nat.ltb_spec 6 (length es)); [|lia].
    destruct (_longest_pair_indices argsort es) as [indices|x] eqn:Hidx.
    + destruct (@filter_longest_adjacent_ok es indices) as [b1 ->];
        [lia|assumption|].
      destruct b1; [|simpl; eauto]. cbn [bind].
      destruct (@filter_longest_approx_orthogonal_ok es indices) as [b2 ->];
        [lia|assumption|].
      destruct b2; [|simpl; eauto]. cbn [bind].
      destruct (@filter_longest_similar_in_length_ok es indices)
        as [[b3 ->]| ->]; [lia|assumption| |auto].
      destruct b3; simpl; eauto.
    + unfold _filter_longest_adjacent. rewrite Hidx. cbn [bind].
      apply longest_pair_indices_raise in Hidx. destruct Hidx as [-> He].
      right. right. auto.
Qed.

(** What filtering and extraction can end in. *)
Lemma extract_patterns_outcome (edge_sets : list (list edge)) :
  (exists fps, extract_patterns argsort edge_sets = Ok fps)
  \/ extract_patterns argsort edge_sets = Raise ZeroDivisionError
  \/ extract_patterns argsort edge_sets = Raise TypeError
  \/ (extract_patterns argsort edge_sets = Raise ValueError /\
      exists es e, In es edge_sets /\ 6 < length es /\ In e es /\
                   _length e = Raise ValueError).
Proof.
  induction edge_sets as [|es rest IH]; [simpl; eauto|].
  cbn [extract_patterns].
  assert (Hrest :
    (exists fps, extract_patterns argsort rest = Ok fps)
    \/ extract_patterns argsort rest = Raise ZeroDivisionError
    \/ extract_patterns argsort rest = Raise TypeError
    \/ (extract_patterns argsort rest = Raise ValueError /\
        exists es' e, In es' (es :: rest) /\ 6 < length es' /\ In e es' /\
                      _length e = Raise ValueError)).
  { destruct IH as [H|[H|[H|(H & es' & e & H1 & H2)]]]; auto.
    right. right. right. split; [assumption|].
    exists es', e. simpl. tauto. }
  clear IH.
  destruct (passes_cascade_outcome es) as [[b Hp]|[Hp|(Hp & Hn & e & He)]];
    rewrite Hp; cbn [bind]; auto.
  - destruct b; [|exact Hrest].
    destruct (passes_cascade_indices es Hp) as [indices Hidx].
    apply passes_cascade_true in Hp. destruct Hp as (Hn & _).
    destruct (@get_finder_pattern_ok es indices) as [[fp ->]| ->];
      [lia|assumption| |auto].
    cbn [bind].
    destruct Hrest as [[fps ->]|[->|[->|(-> & H)]]]; cbn [bind]; eauto.
  - right. right. right. split; [reflexivity|].
    exists es, e. simpl. tauto.
Qed.

(** Where a returned pattern comes from. *)
Lemma extract_patterns_In (edge_sets : list (list edge))
    (fps : list FinderPattern) (fp : FinderPattern) :
  extract_patterns argsort edge_sets = Ok fps -> In fp fps ->
  exists es, In es edge_sets /\
             passes (cascade argsort) es = Ok true /\
             _get_finder_pattern argsort es = Ok fp.
Proof.
  revert fps. induction edge_sets as [|es rest IH]; intros fps.
  - intros [= <-] [].
  - cbn [extract_patterns].
    destruct (passes (cascade argsort) es) as [[|]|] eqn:Hp; cbn [bind];
      try discriminate.
    + destruct (_get_finder_pattern argsort es) as [fp'|] eqn:Hfp;
        cbn [bind]; [|discriminate].
      destruct (extract_patterns argsort rest) as [fps'|]; cbn [bind];
        [|discriminate].
      intros [= <-] [<-|Hin].
      * exists es. simpl. auto.
      * destruct (IH fps' eq_refl Hin) as (es' & H1 & H2).
        exists es'. simpl. auto.
    + intros Hr Hin. destruct (IH fps Hr Hin) as (es' & H1 & H2).
      exists es'. simpl. auto.
Qed.

(** An edge set of six edges or fewer adds nothing to the outcome. *)
Lemma extract_patterns_skip_short (pre : list (list edge)) (es : list edge)
    (post : list (list edge)) :
  length es <= 6 ->
  extract_patterns argsort (pre ++ es :: post)
  = extract_patterns argsort (pre ++ post).
Proof.
  intros Hn. induction pre as [|es' pre IH]; cbn [app extract_patterns].
  - unfold _filter_non_trivial. now rewrite passes_cascade_short.
  - now rewrite IH.
Qed.

(** The locator on contours is the extraction on their edge sets, when they
    all have one. *)
Lemma finder_patterns_extract (contour_vertex_sets : list (list vertex))
    (edge_sets : list (list edge)) :
  result_map _convert_to_edge_set contour_vertex_sets = Ok edge_sets ->
  finder_patterns argsort contour_vertex_sets
  = extract_patterns argsort edge_sets.
Proof.
  revert edge_sets.
  induction contour_vertex_sets as [|vs rest IH]; intros edge_sets;
    cbn [result_map finder_patterns].
  - now intros [= <-].
  - destruct (_convert_to_edge_set vs) as [es|]; cbn [bind]; [|discriminate].
    destruct (result_map _convert_to_edge_set rest) as [ess|]; cbn [bind];
      [|discriminate].
    intros [= <-]. cbn [extract_patterns]. now rewrite (IH ess eq_refl).
Qed.

(** C5. The non-trivial filter keeps an edge set iff it has more than six
    edges, and an edge set of six edges or fewer never yields a pattern:
    the locator returns what it returns without that edge set, and every
    pattern it returns is the pattern of an edge set of more than six edges. *)
Theorem C5_non_trivial_filter :
  (forall es : list edge, _filter_non_trivial es = true <-> 6 < length es) /\
  (forall pre es post, length es <= 6 ->
     extract_patterns argsort (pre ++ es :: post)
     = extract_patterns argsort (pre ++ post)) /\
  (forall edge_sets fps fp,
     extract_patterns argsort edge_sets = Ok fps -> In fp fps ->
     exists es, In es edge_sets /\ 6 < length es /\
                _get_finder_pattern argsort es = Ok fp).
Proof.
  split; [apply non_trivial_iff|].
  split; [apply extract_patterns_skip_short|].
  intros edge_sets fps fp Hr Hin.
  destruct (@extract_patterns_In edge_sets fps fp Hr Hin) as (es & Hes & Hp & Hfp).
  apply passes_cascade_true in Hp.
  exists es. tauto.
Qed.

(** C10. Past the non-trivial filter every edge set has more than six
    edges: a shorter one is rejected there and meets no later filter (the
    cascade returns False even for fewer than two edges, on which the next
    filter would raise). With
    more than six edges the longest-pair computation either stops in the
    [math.sqrt] of an edge's length (ValueError, the squared length having
    wrapped below zero) or returns two distinct indices in range, which
    unpack; in an image of at most 32768 by 32768 it returns them. So in the
    locator the unpacking of the two indices and the indexing of the edges by
    them never fail: the locator raises no IndexError, and a ValueError it
    raises is that of the length of an edge of an edge set of more than six
    edges. *)
Theorem C10_longest_pair_defined :
  (forall es : list edge, length es <= 6 ->
     passes (cascade argsort) es = Ok false) /\
  (forall es : list edge, length es < 2 ->
     _filter_longest_adjacent argsort es = Raise ValueError /\
     passes (cascade argsort) es = Ok false) /\
  (forall es : list edge, passes (cascade argsort) es = Ok true ->
     6 < length es) /\
  (forall es : list edge, 6 < length es ->
     (_longest_pair_indices argsort es = Raise ValueError /\
      exists e, In e es /\ _length e = Raise ValueError)
     \/ exists i j,
          _longest_pair_indices argsort es = Ok [i; j] /\
          unpack2 [i; j] = Ok (i, j) /\
          i < length es /\ j < length es /\ i <> j) /\
  (forall es : list edge, 6 < length es ->
     forallb edge_in_frame es = true ->
     exists i j,
       _longest_pair_indices argsort es = Ok [i; j] /\
       unpack2 [i; j] = Ok (i, j) /\
       i < length es /\ j < length es /\ i <> j) /\
  (forall edge_sets,
     extract_patterns argsort edge_sets <> Raise IndexError /\
     (extract_patterns argsort edge_sets = Raise ValueError ->
      exists es e, In es edge_sets /\ 6 < length es /\ In e es /\
                   _length e = Raise ValueError)).
Proof.
  split; [apply passes_cascade_short|].
  split.
  { intros es Hn. split; [|apply passes_cascade_short; lia].
    pose proof (longest_pair_indices_short es Hn) as H.
    unfold _filter_longest_adjacent.
    destruct (_longest_pair_indices argsort es) as [indices|x];
      cbn [bind] in *; [now rewrite H|now injection H as ->]. }
  split; [intros es H; now apply passes_cascade_true in H|].
  split; [|split].
  - intros es Hn.
    destruct (_longest_pair_indices argsort es) as [indices|x] eqn:Hidx.
    + right.
      destruct (@longest_pair_indices_shape es indices)
        as (i & j & _ & _ & _ & _ & -> & _ & _ & _ & _ & H); [lia|assumption|].
      exists i, j. simpl. tauto.
    + left. apply longest_pair_indices_raise in Hidx.
      destruct Hidx as [-> He]. auto.
  - intros es Hn Hf.
    destruct (longest_pair_indices_in_frame es Hf) as [indices Hidx].
    destruct (@longest_pair_indices_shape es indices)
      as (i & j & _ & _ & _ & _ & -> & _ & _ & _ & _ & H); [lia|assumption|].
    exists i, j. simpl. tauto.
  - intros edge_sets.
    destruct (extract_patterns_outcome edge_sets)
      as [[fps H]|[H|[H|(H & He)]]]; rewrite H;
      (split; [discriminate|]); try discriminate.
    intros _. exact He.
Qed.

End LocatorFacts.

Lemma C5_non_trivial_filter_witness :
  extract_patterns np_argsort
    ([edges_of notched_square]
       ++ edges_of plain_square
       :: [edges_of notched_square])
  = extract_patterns np_argsort
      ([edges_of notched_square]
         ++ [edges_of notched_square]).
Proof.
  apply (proj1 (proj2 (C5_non_trivial_filter np_argsort))).
  vm_compute. lia.
Defined.

Lemma C10_longest_pair_defined_witness :
  exists i j,
    _longest_pair_indices np_argsort (edges_of notched_square) = Ok [i; j] /\
    unpack2 [i; j] = Ok (i, j) /\
    i < 8 /\ j < 8 /\ i <> j.
Proof.
  apply (proj1 (proj2 (proj2 (proj2 (proj2
           (@C10_longest_pair_defined np_argsort np_argsort_perm)))))
           (edges_of notched_square)).
  - vm_compute. lia.
  - vm_compute. reflexivity.
Defined.

(** ** Orientation of the two vectors *)

Section Orientation.

Variable argsort : list float -> list nat.

(** Whatever the edges, the extractor orders the two vectors so that the
    cross product of base and side, computed as line 145 computes it, is not
    positive. *)
Lemma get_finder_pattern_cross_nonpos (edges : list edge) (fp : FinderPattern) :
  _get_finder_pattern argsort edges = Ok fp ->
  (wrap32 (cross (base_vector fp) (side_vector fp)) <= 0)%Z.
Proof.
  unfold _get_finder_pattern.
  destruct (_longest_pair_indices argsort edges) as [indices|]; cbn [bind];
    [|discriminate].
  destruct (unpack2 indices) as [[i j]|]; [|discriminate].
  cbn [bind].
  destruct (getitem edges i) as [e_i|]; [|discriminate].
  destruct (getitem edges j) as [e_j|]; [|discriminate].
  cbn [bind].
  destruct (_get_shared_vertex e_i e_j) as [x|]; [|discriminate].
  destruct (_get_other_vertex x e_i) as [c|]; [|discriminate].
  destruct (_get_other_vertex x e_j) as [d|]; [|discriminate].
  set (vec_c := np_add (np_negative x) c).
  set (vec_d := np_add (np_negative x) d).
  unfold int32_sub, int32_mul. rewrite wrap32_sub.
  destruct (Z.ltb_spec (wrap32 (fst vec_c * snd vec_d - snd vec_c * fst vec_d)) 0)
    as [Hlt|Hge];
    intros [= <-]; unfold cross; cbn [base_vector side_vector]; [lia|].
  replace (fst vec_d * snd vec_c - snd vec_d * fst vec_c)%Z
    with (- (fst vec_c * snd vec_d - snd vec_c * fst vec_d))%Z by lia.
  destruct (wrap32_opp (fst vec_c * snd vec_d - snd vec_c * fst vec_d))
    as [->|[-> _]]; lia.
Qed.

End Orientation.

(** C1. On the notched square the locator returns the corner at the origin
    with base (0,35) and side (40,0): the cross product of base and side is
    -1400, not positive. *)
Theorem C1_orientation_negative :
  finder_patterns np_argsort [notched_square]
  = Ok [mkFinderPattern (0, 0) (0, 35) (40, 0)]%Z
  /\ cross (0, 35)%Z (40, 0)%Z = (-1400)%Z
  /\ forall fp,
       finder_patterns np_argsort [notched_square] = Ok [fp] ->
       (cross (base_vector fp) (side_vector fp) < 0)%Z.
Proof.
  assert (H : finder_patterns np_argsort [notched_square]
              = Ok [mkFinderPattern (0, 0) (0, 35) (40, 0)]%Z)
    by (vm_compute; reflexivity).
  split; [exact H|]. split; [reflexivity|].
  intros fp Hfp. rewrite H in Hfp. injection Hfp as <-.
  vm_compute. reflexivity.
Qed.

Lemma C1_orientation_negative_witness :
  (cross (base_vector (mkFinderPattern (0, 0) (0, 35) (40, 0))%Z)
         (side_vector (mkFinderPattern (0, 0) (0, 35) (40, 0))%Z) < 0)%Z.
Proof.
  apply (proj2 (proj2 C1_orientation_negative)).
  vm_compute. reflexivity.
Defined.

(** ** The corner of two adjacent edges *)

Lemma vertex_eqb_refl (v : vertex) : vertex_eqb v v = true.
Proof. unfold vertex_eqb. now rewrite !Z.eqb_refl. Qed.

Lemma vertex_eqb_eq (a b : vertex) : vertex_eqb a b = true <-> a = b.
Proof.
  unfold vertex_eqb. destruct a as [ax ay], b as [bx b_y]. simpl.
  rewrite andb_true_iff, !Z.eqb_eq. split.
  - now intros [-> ->].
  - now intros [= -> ->].
Qed.

Section Corner.

Variable argsort : list float -> list nat.
Hypothesis argsort_perm :
  forall keys, Permutation (argsort keys) (seq 0 (length keys)).

(** Two edges that touch end to end have a shared vertex. *)
Lemma get_shared_vertex_touching (e_i e_j : edge) :
  snd e_i = fst e_j \/ fst e_i = snd e_j ->
  exists x, _get_shared_vertex e_i e_j = Some x.
Proof.
  intros H. unfold _get_shared_vertex.
  destruct (vertex_eqb (fst e_i) (fst e_j) || vertex_eqb (fst e_i) (snd e_j))
    eqn:E1; [eauto|].
  destruct (vertex_eqb (snd e_i) (fst e_j) || vertex_eqb (snd e_i) (snd e_j))
    eqn:E2; [eauto|].
  apply orb_false_iff in E1, E2. destruct E1 as [_ E1], E2 as [E2 _].
  destruct H as [H|H]; rewrite H, vertex_eqb_refl in *; discriminate.
Qed.

(** In the edge set of a vertex list, edges whose indices are next to each
    other on the circle touch end to end. *)
Lemma adjacent_edges_touch (vs : list vertex) (es : list edge) (i j : nat)
    (e_i e_j : edge) :
  2 <= length vs ->
  _convert_to_edge_set vs = Ok es ->
  nth_error es i = Some e_i ->
  nth_error es j = Some e_j ->
  S i mod length vs = j \/ S j mod length vs = i ->
  snd e_i = fst e_j \/ fst e_i = snd e_j.
Proof.
  intros Hn Hes Hi Hj Hadj. unfold _convert_to_edge_set in *.
  assert (Hlen := pairs_circular_length vs Hn Hes).
  assert (Hi' : i < length vs).
  { rewrite <- Hlen. apply nth_error_Some. intros Hc.
    discriminate (eq_trans (eq_sym Hc) Hi). }
  assert (Hj' : j < length vs).
  { rewrite <- Hlen. apply nth_error_Some. intros Hc.
    discriminate (eq_trans (eq_sym Hc) Hj). }
  destruct (pairs_circular_nth vs Hn Hes Hi') as (a & b & Ha & Hb & Hab).
  destruct (pairs_circular_nth vs Hn Hes Hj') as (a' & b' & Ha' & Hb' & Hab').
  pose proof (eq_trans (eq_sym Hi) Hab) as Ei.
  pose proof (eq_trans (eq_sym Hj) Hab') as Ej.
  injection Ei as ->. injection Ej as ->. simpl.
  destruct Hadj as [H|H].
  - left. rewrite H in Hb. congruence.
  - right. rewrite H in Hb'. congruence.
Qed.

Lemma circular_neighbours (n i j : nat) :
  2 <= n -> i < n -> j < n ->
  let d := Z.abs (Z.of_nat i - Z.of_nat j) in
  ((d =? 1)%Z || (d =? Z.of_nat n - 1)%Z) = true ->
  S i mod n = j \/ S j mod n = i.
Proof.
  intros Hn Hi Hj d Hd. apply orb_true_iff in Hd.
  rewrite !Z.eqb_eq in Hd. subst d.
  destruct (Nat.eq_dec (S i) n) as [Ei|Ei];
    destruct (Nat.eq_dec (S j) n) as [Ej|Ej].
  - lia.
  - rewrite Ei, Nat.Div0.mod_same. rewrite (Nat.mod_small (S j)) by lia. lia.
  - rewrite Ej, Nat.Div0.mod_same. rewrite (Nat.mod_small (S i)) by lia. lia.
  - rewrite !Nat.mod_small by lia. lia.
Qed.

(** The extractor has no way out when the corner is missing. *)
Lemma extract_patterns_no_corner (es : list edge) (rest : list (list edge))
    (i j : nat) (e_i e_j : edge) :
  passes (cascade argsort) es = Ok true ->
  _longest_pair_indices argsort es = Ok [i; j] ->
  nth_error es i = Some e_i -> nth_error es j = Some e_j ->
  _get_shared_vertex e_i e_j = None ->
  extract_patterns argsort (es :: rest) = Raise TypeError.
Proof.
  intros Hp Hij Hi Hj Hnone. cbn [extract_patterns]. rewrite Hp. cbn [bind].
  unfold _get_finder_pattern, getitem. rewrite Hij. cbn [unpack2 bind].
  rewrite Hi, Hj. cbn [bind]. now rewrite Hnone.
Qed.

(** C2, as the code has it. In the locator the two longest edges of an edge
    set that passed the longest-adjacent filter always share a vertex, the
    edge set being the circular pairing of a vertex list: the corner is
    always found. The extractor has no recovery of its own: on an edge set
    that passed the filters and whose two longest edges share no vertex it
    raises TypeError, and the exception ends the call. *)
Theorem C2_corner_found_or_call_ends :
  (forall (vs : list vertex) (es : list edge) i j e_i e_j,
     _convert_to_edge_set vs = Ok es ->
     _filter_non_trivial es = true ->
     _filter_longest_adjacent argsort es = Ok true ->
     _longest_pair_indices argsort es = Ok [i; j] ->
     nth_error es i = Some e_i -> nth_error es j = Some e_j ->
     exists x, _get_shared_vertex e_i e_j = Some x) /\
  (forall (es : list edge) rest i j e_i e_j,
     passes (cascade argsort) es = Ok true ->
     _longest_pair_indices argsort es = Ok [i; j] ->
     nth_error es i = Some e_i -> nth_error es j = Some e_j ->
     _get_shared_vertex e_i e_j = None ->
     extract_patterns argsort (es :: rest) = Raise TypeError).
Proof.
  split; [|apply extract_patterns_no_corner].
  intros vs es i j e_i e_j Hes Hnt Hadj Hij Hi Hj.
  apply non_trivial_iff in Hnt.
  assert (Hvs : 2 <= length vs).
  { destruct vs as [|v0 [|v1 rest]]; try discriminate; simpl; [|lia].
    injection Hes as <-. simpl in Hnt. lia. }
  assert (Hlen : length es = length vs)
    by (apply (pairs_circular_length vs Hvs Hes)).
  assert (Hi' : i < length es) by (apply nth_error_Some; now rewrite Hi).
  assert (Hj' : j < length es) by (apply nth_error_Some; now rewrite Hj).
  apply get_shared_vertex_touching.
  apply (@adjacent_edges_touch vs es i j); try assumption.
  unfold _filter_longest_adjacent in Hadj. rewrite Hij in Hadj.
  cbn [unpack2 bind] in Hadj. injection Hadj as Hadj.
  rewrite <- Hlen.
  apply circular_neighbours; try assumption. lia.
Qed.

End Corner.

Lemma C2_corner_found_or_call_ends_witness :
  (exists x,
     _get_shared_vertex ((0, 0), (40, 0))%Z ((0, 35), (0, 0))%Z = Some x) /\
  extract_patterns np_argsort [broken_edges; edges_of notched_square]
  = Raise TypeError.
Proof.
  split.
  - apply (proj1 (C2_corner_found_or_call_ends np_argsort) notched_square
             (edges_of notched_square) 0 7);
      vm_compute; reflexivity.
  - apply (proj2 (C2_corner_found_or_call_ends np_argsort) broken_edges
             [edges_of notched_square] 0 7
             ((1, 0), (41, 0))%Z ((0, 35), (0, 0))%Z);
      vm_compute; reflexivity.
Defined.

(** C2 as stated fails: [broken_edges] passes the four filters, its two
    longest edges share no vertex, and the call that would have returned the
    pattern of the notched square raises TypeError instead of skipping it. *)
Lemma C2_no_recovery_counterexample :
  ~ (forall (es : list edge) rest fps i j e_i e_j,
       passes (cascade np_argsort) es = Ok true ->
       _longest_pair_indices np_argsort es = Ok [i; j] ->
       nth_error es i = Some e_i -> nth_error es j = Some e_j ->
       _get_shared_vertex e_i e_j = None ->
       extract_patterns np_argsort rest = Ok fps ->
       extract_patterns np_argsort (es :: rest) = Ok fps).
Proof.
  intros H.
  specialize (H broken_edges [edges_of notched_square]
                [mkFinderPattern (0, 0) (0, 35) (40, 0)]%Z 0 7
                ((1, 0), (41, 0))%Z ((0, 35), (0, 0))%Z).
  assert (E : extract_patterns np_argsort
                [broken_edges; edges_of notched_square]
              = Raise TypeError) by (vm_compute; reflexivity).
  rewrite E in H.
  discriminate H; vm_compute; reflexivity.
Qed.


(** ** Facts of binary64 arithmetic *)

Section FloatFacts.

Lemma SFabs_binary_round_aux (s1 s2 : bool) (m e : Z) (l : location) :
  SFabs (binary_round_aux prec emax s1 m e l)
  = SFabs (binary_round_aux prec emax s2 m e l).
Proof.
  unfold binary_round_aux.
  destruct (shr_fexp prec emax m e l) as [mrs' e'].
  destruct (shr_fexp prec emax _ e' loc_Exact) as [mrs'' e''].
  destruct (shr_m mrs''); try reflexivity.
  destruct (e'' <=? emax - prec)%Z; reflexivity.
Qed.

Lemma SFabs_binary_normalize_opp (m e : Z) (s : bool) :
  SFabs (binary_normalize prec emax (- m) e s)
  = SFabs (binary_normalize prec emax m e s).
Proof.
  destruct m as [|p|p]; simpl; try reflexivity;
    unfold binary_round;
    destruct (shl_align _ _ _) as [mz ez];
    apply SFabs_binary_round_aux.
Qed.

Lemma SFmul_comm (x y : spec_float) :
  SFmul prec emax x y = SFmul prec emax y x.
Proof.
  destruct x as [sx|sx| |sx mx ex], y as [sy|sy| |sy my ey]; simpl;
    try reflexivity; try (now rewrite xorb_comm).
  now rewrite xorb_comm, Pos.mul_comm, Z.add_comm.
Qed.

Lemma SFadd_comm (x y : spec_float) :
  SFadd prec emax x y = SFadd prec emax y x.
Proof.
  destruct x as [sx|sx| |sx mx ex], y as [sy|sy| |sy my ey]; simpl;
    try reflexivity; try (now destruct sx, sy).
  now rewrite Z.min_comm, Z.add_comm.
Qed.

Lemma SFabs_sub_swap (x y : spec_float) :
  SFabs (SFsub prec emax x y) = SFabs (SFsub prec emax y x).
Proof.
  destruct x as [sx|sx| |sx mx ex], y as [sy|sy| |sy my ey]; simpl;
    try reflexivity; try (now destruct sx, sy).
  rewrite (Z.min_comm ey ex).
  rewrite <- SFabs_binary_normalize_opp. f_equal. f_equal. lia.
Qed.

Lemma SFabs_div_opp (x y : spec_float) :
  SFabs (SFdiv prec emax (SFopp x) y) = SFabs (SFdiv prec emax x y).
Proof.
  destruct x as [sx|sx| |sx mx ex], y as [sy|sy| |sy my ey]; simpl;
    try reflexivity.
  destruct (SFdiv_core_binary prec emax (Z.pos mx) ex (Z.pos my) ey)
    as [[mz ez] lz].
  apply SFabs_binary_round_aux.
Qed.

Lemma float_mul_comm (a b : float) : (a * b = b * a)%float.
Proof.
  apply Prim2SF_inj. rewrite !mul_spec. apply SFmul_comm.
Qed.

Lemma float_add_comm (a b : float) : (a + b = b + a)%float.
Proof.
  apply Prim2SF_inj. rewrite !add_spec. apply SFadd_comm.
Qed.

Lemma float_abs_sub_swap (a b : float) : (abs (a - b) = abs (b - a))%float.
Proof.
  apply Prim2SF_inj. rewrite !abs_spec, !sub_spec. apply SFabs_sub_swap.
Qed.

Lemma float_abs_div_opp (x m : float) : (abs (- x / m) = abs (x / m))%float.
Proof.
  apply Prim2SF_inj. rewrite !abs_spec, !div_spec, opp_spec.
  apply SFabs_div_opp.
Qed.

(** Negating the integer changes at most the sign of the quotient. *)
Lemma float_of_Z_opp_div (z : Z) (m : float) :
  (abs (float_of_Z (- z) / m) = abs (float_of_Z z / m))%float.
Proof.
  destruct z as [|p|p]; simpl.
  - reflexivity.
  - apply float_abs_div_opp.
  - symmetry. apply float_abs_div_opp.
Qed.

End FloatFacts.


(** ** The vectors of a pattern are the two longest edges, up to sign *)

Lemma modulus_negative (v : vector) : _modulus (np_negative v) = _modulus v.
Proof.
  unfold _modulus, quadrature_add, np_negative. cbn [map fst snd].
  now rewrite !int32_mul_opp.
Qed.

Lemma modulus_same_line (a b : vector) : same_line a b -> _modulus a = _modulus b.
Proof. intros [->| ->]; [reflexivity|apply modulus_negative]. Qed.

Lemma np_dot_comm (a b : vector) : np_dot a b = np_dot b a.
Proof. rewrite !np_dot_exact. f_equal. lia. Qed.

Lemma np_dot_negative_l (a b : vector) :
  np_dot (np_negative a) b = (- np_dot a b)%Z
  \/ np_dot (np_negative a) b = np_dot a b.
Proof.
  rewrite !np_dot_exact. unfold np_negative. cbn [fst snd].
  replace (- fst a * fst b + - snd a * snd b)%Z
    with (- (fst a * fst b + snd a * snd b))%Z by lia.
  destruct (wrap32_opp (fst a * fst b + snd a * snd b)) as [->|[-> ->]]; auto.
Qed.

Lemma cosine_sym (a b : vector) : _cosine a b = _cosine b a.
Proof.
  unfold _cosine. rewrite np_dot_comm.
  destruct (modulus_outcome a) as [[m_a ->]| ->],
           (modulus_outcome b) as [[m_b ->]| ->]; cbn [bind]; try reflexivity.
  now rewrite float_mul_comm.
Qed.

Lemma abs_cosine_negative_l (a b : vector) :
  fmap abs (_cosine (np_negative a) b) = fmap abs (_cosine a b).
Proof.
  unfold _cosine, fmap. rewrite modulus_negative.
  destruct (_modulus a) as [m_a|]; cbn [bind]; [|reflexivity].
  destruct (_modulus b) as [m_b|]; cbn [bind]; [|reflexivity].
  destruct (np_dot_negative_l a b) as [-> | ->]; [|reflexivity].
  now rewrite float_of_Z_opp_div.
Qed.

Lemma abs_cosine_same_line (a a' b b' : vector) :
  same_line a a' -> same_line b b' ->
  fmap abs (_cosine a b) = fmap abs (_cosine a' b').
Proof.
  intros [->| ->] [->| ->]; try reflexivity.
  - rewrite cosine_sym, abs_cosine_negative_l. now rewrite cosine_sym.
  - apply abs_cosine_negative_l.
  - rewrite abs_cosine_negative_l, cosine_sym, abs_cosine_negative_l.
    now rewrite cosine_sym.
Qed.

Lemma unpack2_ok (A : Type) (xs : list A) (i j : A) :
  unpack2 xs = Ok (i, j) -> xs = [i; j].
Proof.
  destruct xs as [|a [|b [|c tl]]]; simpl; try discriminate.
  now intros [= -> ->].
Qed.

Lemma getitem_ok (A : Type) (xs : list A) (n : nat) (x : A) :
  getitem xs n = Ok x -> nth_error xs n = Some x.
Proof.
  unfold getitem. destruct (nth_error xs n); [now intros [= ->]|discriminate].
Qed.

Lemma get_shared_vertex_in (e_i e_j : edge) (x : vertex) :
  _get_shared_vertex e_i e_j = Some x ->
  (x = fst e_i \/ x = snd e_i) /\ (x = fst e_j \/ x = snd e_j).
Proof.
  unfold _get_shared_vertex.
  destruct (vertex_eqb (fst e_i) (fst e_j) || vertex_eqb (fst e_i) (snd e_j))
    eqn:E1.
  - intros [= <-]. split; [now left|].
    apply orb_true_iff in E1. rewrite !vertex_eqb_eq in E1. tauto.
  - destruct (vertex_eqb (snd e_i) (fst e_j) || vertex_eqb (snd e_i) (snd e_j))
      eqn:E2; [|discriminate].
    intros [= <-]. split; [now right|].
    apply orb_true_iff in E2. rewrite !vertex_eqb_eq in E2. tauto.
Qed.

Lemma get_other_vertex_in (x : vertex) (e : edge) (c : vertex) :
  _get_other_vertex x e = Some c ->
  (c = fst e \/ c = snd e) /\ c <> x.
Proof.
  unfold _get_other_vertex.
  destruct (vertex_eqb (fst e) x) eqn:E1; simpl.
  - destruct (vertex_eqb (snd e) x) eqn:E2; simpl; [discriminate|].
    intros [= <-]. split; [now right|].
    intros H. apply vertex_eqb_eq in H. congruence.
  - intros [= <-]. split; [now left|].
    intros H. apply vertex_eqb_eq in H. congruence.
Qed.

(** The vector from the corner to the other end of an edge is the edge's
    vector [tail - head], or its opposite. *)
Lemma corner_vector (x c : vertex) (e : edge) :
  x = fst e \/ x = snd e -> c = fst e \/ c = snd e -> c <> x ->
  same_line (np_add (np_negative x) c) (np_subtract (fst e) (snd e)).
Proof.
  destruct e as [[t1 t2] [h1 h2]]. simpl.
  intros [->| ->] [->| ->] Hne; try congruence; unfold same_line.
  - right. unfold np_add, np_negative, np_subtract. simpl. f_equal; lia.
  - left. unfold np_add, np_negative, np_subtract. simpl. f_equal; lia.
Qed.


Section Bounds.

Variable argsort : list float -> list nat.

(** Where a pattern comes from. *)
Lemma get_finder_pattern_vectors (edges : list edge) (fp : FinderPattern) :
  _get_finder_pattern argsort edges = Ok fp ->
  exists i j e_i e_j,
    _longest_pair_indices argsort edges = Ok [i; j] /\
    nth_error edges i = Some e_i /\ nth_error edges j = Some e_j /\
    let v_i := np_subtract (fst e_i) (snd e_i) in
    let v_j := np_subtract (fst e_j) (snd e_j) in
    (same_line (base_vector fp) v_i /\ same_line (side_vector fp) v_j) \/
    (same_line (base_vector fp) v_j /\ same_line (side_vector fp) v_i).
Proof.
  unfold _get_finder_pattern.
  destruct (_longest_pair_indices argsort edges) as [indices|]; cbn [bind];
    [|discriminate].
  destruct (unpack2 indices) as [[i j]|] eqn:Hij; [|discriminate].
  apply unpack2_ok in Hij. subst indices. cbn [bind].
  destruct (getitem edges i) as [e_i|] eqn:Hi; [|discriminate].
  destruct (getitem edges j) as [e_j|] eqn:Hj; [|discriminate].
  apply getitem_ok in Hi, Hj. cbn [bind].
  destruct (_get_shared_vertex e_i e_j) as [x|] eqn:Hx; [|discriminate].
  destruct (_get_other_vertex x e_i) as [c|] eqn:Hc; [|discriminate].
  destruct (_get_other_vertex x e_j) as [d|] eqn:Hd; [|discriminate].
  apply get_shared_vertex_in in Hx. destruct Hx as [Hxi Hxj].
  apply get_other_vertex_in in Hc, Hd.
  destruct Hc as [Hc Hcx], Hd as [Hd Hdx].
  pose proof (@corner_vector x c e_i Hxi Hc Hcx) as Vc.
  pose proof (@corner_vector x d e_j Hxj Hd Hdx) as Vd.
  intros Hfp. exists i, j, e_i, e_j. repeat split; try assumption.
  destruct (_ <? 0)%Z; injection Hfp as <-; cbn [base_vector side_vector];
    [left|right]; split; assumption.
Qed.

(** The test of the orthogonality filter, carried over to base and side: the
    cosine the locator would compute for them is below 0.1 in magnitude. *)
Lemma returned_cosine_test (edge_sets : list (list edge))
    (fps : list FinderPattern) (fp : FinderPattern) :
  extract_patterns argsort edge_sets = Ok fps -> In fp fps ->
  exists c,
    fmap abs (_cosine (base_vector fp) (side_vector fp)) = Ok c /\
    (c <? tenth)%float = true.
Proof.
  intros Hr Hin.
  destruct (@extract_patterns_In argsort edge_sets fps fp Hr Hin)
    as (es & Hes & Hp & Hfp).
  apply passes_cascade_true in Hp. destruct Hp as (_ & _ & Horth & _).
  destruct (@get_finder_pattern_vectors es fp Hfp)
    as (i & j & e_i & e_j & Hij & Hi & Hj & Hv).
  unfold _filter_longest_approx_orthogonal, getitem in Horth.
  rewrite Hij in Horth. cbn [unpack2 bind] in Horth.
  rewrite Hi, Hj in Horth. cbn [bind] in Horth.
  assert (Hcos : fmap abs (_cosine (base_vector fp) (side_vector fp))
                 = fmap abs (_cosine (np_subtract (fst e_i) (snd e_i))
                                     (np_subtract (fst e_j) (snd e_j)))).
  { destruct Hv as [[Hb Hs]|[Hb Hs]].
    - apply (abs_cosine_same_line Hb Hs).
    - rewrite cosine_sym. apply (abs_cosine_same_line Hs Hb). }
  rewrite Hcos. unfold fmap.
  destruct (_cosine _ _) as [c|]; cbn [bind] in *; [|discriminate].
  exists (abs c). split; [reflexivity|]. now injection Horth.
Qed.

(** The test of the similar-length filter, carried over to base and side. *)
Lemma returned_length_test (edge_sets : list (list edge))
    (fps : list FinderPattern) (fp : FinderPattern) :
  extract_patterns argsort edge_sets = Ok fps -> In fp fps ->
  exists l_base l_side,
    _modulus (base_vector fp) = Ok l_base /\
    _modulus (side_vector fp) = Ok l_side /\
    (abs (l_base - l_side) / abs (l_base + l_side) <? tenth)%float = true.
Proof.
  intros Hr Hin.
  destruct (@extract_patterns_In argsort edge_sets fps fp Hr Hin)
    as (es & Hes & Hp & Hfp).
  apply passes_cascade_true in Hp. destruct Hp as (_ & _ & _ & Hsim).
  destruct (@get_finder_pattern_vectors es fp Hfp)
    as (i & j & e_i & e_j & Hij & Hi & Hj & Hv).
  unfold _filter_longest_similar_in_length, getitem in Hsim.
  rewrite Hij in Hsim. cbn [unpack2 bind] in Hsim.
  rewrite Hi, Hj in Hsim. cbn [bind] in Hsim.
  destruct (_length e_i) as [l_i|] eqn:Hli; cbn [bind] in Hsim; [|discriminate].
  destruct (_length e_j) as [l_j|] eqn:Hlj; cbn [bind] in Hsim; [|discriminate].
  destruct (abs (l_i + l_j) =? 0)%float; [discriminate|].
  injection Hsim as Hsim.
  unfold _length, _distance in Hli, Hlj.
  destruct Hv as [[Hb Hs]|[Hb Hs]];
    apply modulus_same_line in Hb, Hs; rewrite Hb, Hs.
  - exists l_i, l_j. auto.
  - exists l_j, l_i. repeat split; try assumption.
    now rewrite float_abs_sub_swap, float_add_comm.
Qed.

End Bounds.

(** C6. The locator returns a pattern whose base and side are far from
    orthogonal. On [folded_contour] the two longest edges leave (65537, 362)
    for (0, 0) and for (0, 725): the angle between them has a squared cosine
    above 0.99. Their dot product, 4294966963, is -333 as an [np.int32] (333
    for the two edges as the filter takes them, one pointing to the corner
    and one away from it), and the squares of their lengths wrap to 262117
    and 262842, so the filter computes a cosine of 0.0013 and keeps the
    contour. *)
Theorem C6_orthogonality_lost_to_overflow :
  finder_patterns np_argsort [folded_contour]
  = Ok [mkFinderPattern (65537, 362) (-65537, -362) (-65537, 363)]%Z
  /\ _filter_longest_approx_orthogonal np_argsort (edges_of folded_contour)
     = Ok true
  /\ forall fp,
       finder_patterns np_argsort [folded_contour] = Ok [fp] ->
       (99 * (norm2 (base_vector fp) * norm2 (side_vector fp))
        <= 100 * (dot (base_vector fp) (side_vector fp)
                  * dot (base_vector fp) (side_vector fp)))%Z.
Proof.
  assert (H : finder_patterns np_argsort [folded_contour]
              = Ok [mkFinderPattern (65537, 362) (-65537, -362) (-65537, 363)]%Z)
    by (vm_compute; reflexivity).
  split; [exact H|]. split; [vm_compute; reflexivity|].
  intros fp Hfp. rewrite H in Hfp. injection Hfp as <-.
  vm_compute. discriminate.
Qed.

Lemma C6_orthogonality_lost_to_overflow_witness :
  let fp := (mkFinderPattern (65537, 362) (-65537, -362) (-65537, 363))%Z in
  (99 * (norm2 (base_vector fp) * norm2 (side_vector fp))
   <= 100 * (dot (base_vector fp) (side_vector fp)
             * dot (base_vector fp) (side_vector fp)))%Z.
Proof.
  intros fp.
  apply (proj2 (proj2 C6_orthogonality_lost_to_overflow)).
  vm_compute. reflexivity.
Defined.

(** C7. The locator returns a pattern whose side is 256 times as long as its
    base. On [lopsided_contour] the two longest edges, as the locator
    measures them, leave (1, 0) for (65537, 256) and for (0, 256): the square
    of 65536 wraps to 0, so the first has length 256 for the filter, the
    second 256.002, and the contour is kept. *)
Theorem C7_length_similarity_lost_to_overflow :
  finder_patterns np_argsort [lopsided_contour]
  = Ok [mkFinderPattern (1, 0) (-1, 256) (65536, 256)]%Z
  /\ _filter_longest_similar_in_length np_argsort (edges_of lopsided_contour)
     = Ok true
  /\ forall fp,
       finder_patterns np_argsort [lopsided_contour] = Ok [fp] ->
       norm2 (side_vector fp) = (65536 * norm2 (base_vector fp))%Z /\
       (121 * norm2 (base_vector fp) <= 81 * norm2 (side_vector fp))%Z.
Proof.
  assert (H : finder_patterns np_argsort [lopsided_contour]
              = Ok [mkFinderPattern (1, 0) (-1, 256) (65536, 256)]%Z)
    by (vm_compute; reflexivity).
  split; [exact H|]. split; [vm_compute; reflexivity|].
  intros fp Hfp. rewrite H in Hfp. injection Hfp as <-.
  split; [vm_compute; reflexivity|vm_compute; discriminate].
Qed.

Lemma C7_length_similarity_lost_to_overflow_witness :
  let fp := (mkFinderPattern (1, 0) (-1, 256) (65536, 256))%Z in
  norm2 (side_vector fp) = (65536 * norm2 (base_vector fp))%Z /\
  (121 * norm2 (base_vector fp) <= 81 * norm2 (side_vector fp))%Z.
Proof.
  intros fp.
  apply (proj2 (proj2 C7_length_similarity_lost_to_overflow)).
  vm_compute. reflexivity.
Defined.

(** ** The heap: what a call of the locator leaves untouched *)

Lemma nth_error_alloc_here (A : Type) (h : list A) (x : A) :
  nth_error (h ++ [x]) (length h) = Some x.
Proof. rewrite nth_error_app2 by lia. now rewrite Nat.sub_diag. Qed.

Lemma nth_error_alloc_before (A : Type) (h : list A) (x : A) (n : nat) :
  n < length h -> nth_error (h ++ [x]) n = nth_error h n.
Proof. intros Hn. now apply nth_error_app1. Qed.

Lemma length_update (A : Type) (xs : list A) (n : nat) (x : A) :
  length (update xs n x) = length xs.
Proof.
  revert n. induction xs as [|y xs IH]; intros [|n]; simpl; auto.
Qed.

Lemma firstn_update (A : Type) (xs : list A) (n k : nat) (x : A) :
  k <= n -> firstn k (update xs n x) = firstn k xs.
Proof.
  revert n k. induction xs as [|y xs IH]; intros [|n] [|k] Hk; simpl;
    try reflexivity; try lia.
  f_equal. apply IH. lia.
Qed.

Section Frame.

Variable n : nat.

Lemma frame_bind (A B : Type) (m : cv A) (k : A -> cv B)
    (Q : A -> Prop) (R : B -> Prop) :
  frame n m Q -> (forall a, Q a -> frame n (k a) R) ->
  frame n (cv_bind m k) R.
Proof.
  intros Hm Hk w Hw. unfold cv_bind.
  destruct (Hm w Hw) as (Hfirst & Hlen & HQ).
  destruct (m w) as [[a|e] w1]; simpl in *.
  - destruct (Hk a (HQ a eq_refl) w1 Hlen) as (Hfirst' & Hlen' & HR).
    split; [congruence|]. split; assumption.
  - split; [assumption|]. split; [assumption|]. discriminate.
Qed.

Lemma frame_weaken (A : Type) (m : cv A) (Q R : A -> Prop) :
  frame n m Q -> (forall a, Q a -> R a) -> frame n m R.
Proof.
  intros Hm HQR w Hw. destruct (Hm w Hw) as (H1 & H2 & H3).
  repeat split; auto.
Qed.

Lemma frame_ret (A : Type) (a : A) (Q : A -> Prop) :
  Q a -> frame n (ret a) Q.
Proof. intros HQ w Hw. simpl. repeat split; auto. now intros ? [= <-]. Qed.

Lemma frame_lift (A : Type) (r : result A) :
  frame n (lift r) (fun _ => True).
Proof. intros w Hw. simpl. auto. Qed.

Lemma frame_record (c : call) : frame n (record c) (fun _ => True).
Proof. intros w Hw. simpl. auto. Qed.

Lemma frame_load (e : exn) (a : nat) : frame n (load e a) (fun _ => True).
Proof.
  intros w Hw. unfold load. destruct (nth_error (heap w) a); simpl; auto.
Qed.

Lemma frame_cv_map (A B : Type) (f : A -> cv B) (xs : list A) :
  (forall x, frame n (f x) (fun _ => True)) ->
  frame n (cv_map f xs) (fun _ => True).
Proof.
  intros Hf. induction xs as [|x xs IH]; cbn [cv_map].
  - now apply frame_ret.
  - eapply frame_bind; [apply Hf|intros y _].
    eapply frame_bind; [apply IH|intros ys _].
    now apply frame_ret.
Qed.

(** A new array lies beyond the first [n]. *)
Lemma frame_alloc (img : image) : frame n (alloc img) (fun a => n <= a).
Proof.
  intros w Hw. unfold alloc. simpl. repeat split.
  - rewrite firstn_app. replace (n - length (heap w)) with 0 by lia.
    simpl. apply app_nil_r.
  - rewrite length_app. simpl. lia.
  - now intros a [= <-].
Qed.

Lemma frame_store (a : nat) (img : image) :
  n <= a -> frame n (store a img) (fun _ => True).
Proof.
  intros Ha w Hw. unfold store. simpl. repeat split.
  - now apply firstn_update.
  - now rewrite length_update.
Qed.

End Frame.

Section OpenCVFacts.

Variable px_adaptiveThreshold : image -> Z -> float -> result image.
Variable px_getStructuringElement : Z -> result image.
Variable px_morphologyEx : image -> image -> result image.
Variable px_findContours : image -> result (image * list contour).
Variable px_approxPolyDP : contour -> result (list vertex).
Variable not_an_array : exn.
Variable argsort : list float -> list nat.

Local Abbreviation locate :=
  (locate_datamatrices px_adaptiveThreshold px_getStructuringElement
     px_morphologyEx px_findContours px_approxPolyDP not_an_array argsort).

Variable n : nat.

Lemma frame_adaptiveThreshold (src : nat) (blocksize : Z) (C : float) :
  frame n (adaptiveThreshold px_adaptiveThreshold not_an_array src blocksize C)
        (fun dst => n <= dst).
Proof.
  unfold adaptiveThreshold.
  eapply frame_bind; [apply frame_record|intros _ _].
  eapply frame_bind; [apply frame_load|intros px _].
  eapply frame_bind; [apply frame_lift|intros dst _].
  apply frame_alloc.
Qed.

Lemma frame_getStructuringElement (ksize : Z) :
  frame n (getStructuringElement px_getStructuringElement ksize)
        (fun dst => n <= dst).
Proof.
  unfold getStructuringElement.
  eapply frame_bind; [apply frame_record|intros _ _].
  eapply frame_bind; [apply frame_lift|intros el _].
  apply frame_alloc.
Qed.

Lemma frame_morphologyEx (src kernel : nat) :
  frame n (morphologyEx px_morphologyEx not_an_array src kernel)
        (fun dst => n <= dst).
Proof.
  unfold morphologyEx.
  eapply frame_bind; [apply frame_record|intros _ _].
  eapply frame_bind; [apply frame_load|intros px _].
  eapply frame_bind; [apply frame_load|intros k _].
  eapply frame_bind; [apply frame_lift|intros dst _].
  apply frame_alloc.
Qed.

(** The tracer writes into the image it is given: it keeps the first [n]
    arrays when that image is not one of them. *)
Lemma frame_findContours (img : nat) :
  n <= img ->
  frame n (findContours px_findContours not_an_array img) (fun _ => True).
Proof.
  intros Himg. unfold findContours.
  eapply frame_bind; [apply frame_record|intros _ _].
  eapply frame_bind; [apply frame_load|intros px _].
  eapply frame_bind; [apply frame_lift|intros r _].
  eapply frame_bind; [now apply frame_store|intros _ _].
  now apply frame_ret.
Qed.

Lemma frame_approxPolyDP (rc : contour) :
  frame n (approxPolyDP px_approxPolyDP rc) (fun _ => True).
Proof.
  unfold approxPolyDP.
  eapply frame_bind; [apply frame_record|intros _ _].
  apply frame_lift.
Qed.

Lemma frame_copy (arr : nat) :
  frame n (copy not_an_array arr) (fun c => n <= c).
Proof.
  unfold copy.
  eapply frame_bind; [apply frame_load|intros px _].
  apply frame_alloc.
Qed.

Lemma frame_do_morph (gray : nat) (blocksize : Z) (C : float) (morphsize : Z) :
  frame n (_do_morph px_adaptiveThreshold px_getStructuringElement
             px_morphologyEx not_an_array gray blocksize C morphsize)
        (fun dst => n <= dst).
Proof.
  unfold _do_morph.
  eapply frame_bind; [apply frame_adaptiveThreshold|intros thresh _].
  eapply frame_bind; [apply frame_getStructuringElement|intros element _].
  apply frame_morphologyEx.
Qed.

(** Thanks to [arr.copy()] this holds for any [arr]. *)
Lemma frame_get_contours (arr : nat) :
  frame n (_get_contours px_findContours px_approxPolyDP not_an_array arr)
        (fun _ => True).
Proof.
  unfold _get_contours.
  eapply frame_bind; [apply frame_copy|intros c Hc].
  eapply frame_bind; [now apply frame_findContours|intros raw _].
  apply frame_cv_map. apply frame_approxPolyDP.
Qed.

Lemma frame_locate (gray : nat) (blocksize : Z) (C : float) (close_size : Z) :
  frame n (locate gray blocksize C close_size) (fun _ => True).
Proof.
  unfold locate, locate_datamatrices.
  eapply frame_bind; [apply frame_do_morph|intros morphed _].
  eapply frame_bind; [apply frame_get_contours|intros cvs _].
  apply frame_lift.
Qed.

End OpenCVFacts.

(** ** The locator as a whole *)

Section LocateFacts.

Variable px_adaptiveThreshold : image -> Z -> float -> result image.
Variable px_getStructuringElement : Z -> result image.
Variable px_morphologyEx : image -> image -> result image.
Variable px_findContours : image -> result (image * list contour).
Variable px_approxPolyDP : contour -> result (list vertex).
Variable not_an_array : exn.
Variable argsort : list float -> list nat.

Local Abbreviation locate :=
  (locate_datamatrices px_adaptiveThreshold px_getStructuringElement
     px_morphologyEx px_findContours px_approxPolyDP not_an_array argsort).

Local Abbreviation outcome :=
  (locate_outcome px_adaptiveThreshold px_getStructuringElement
     px_morphologyEx px_findContours px_approxPolyDP not_an_array argsort).

(** The calls of [approxPolyDP]: one for each raw contour in turn, up to the
    first that raises; no array is made or changed. *)
Lemma cv_map_approxPolyDP (raw : list contour) (w : world) :
  exists later,
    cv_map (approxPolyDP px_approxPolyDP) raw w
    = (result_map px_approxPolyDP raw, mkWorld (heap w) (calls w ++ later)) /\
    (forall cvs, result_map px_approxPolyDP raw = Ok cvs ->
                 later = map ApproxPolyDP raw).
Proof.
  revert w. induction raw as [|rc raw IH]; intros [h cs].
  - exists []. cbn [cv_map result_map ret heap calls]. rewrite app_nil_r.
    split; [reflexivity|]. reflexivity.
  - cbn [cv_map result_map]. unfold cv_bind at 1.
    unfold approxPolyDP at 1. unfold cv_bind at 1, record, lift.
    cbn [heap calls].
    destruct (px_approxPolyDP rc) as [y|e]; cbn [bind].
    + unfold cv_bind at 1.
      destruct (IH (mkWorld h (cs ++ [ApproxPolyDP rc]))) as (later & -> & Hl).
      cbn [heap calls].
      exists (ApproxPolyDP rc :: later). rewrite <- app_assoc. cbn [app].
      destruct (result_map px_approxPolyDP raw) as [ys|e]; cbn [bind ret].
      * split; [reflexivity|]. intros cvs _. cbn [map]. f_equal.
        now apply (Hl ys).
      * split; [reflexivity|]. discriminate.
    + exists [ApproxPolyDP rc]. split; [reflexivity|]. discriminate.
Qed.

(** The value returned depends on the world through the pixels of the
    input image only. *)
Lemma locate_result (w : world) (gray : nat) (blocksize : Z) (C : float)
    (close_size : Z) :
  fst (locate gray blocksize C close_size w)
  = outcome (nth_error (heap w) gray) blocksize C close_size.
Proof.
  unfold locate, outcome, locate_datamatrices, locate_outcome, _do_morph,
    _get_contours, adaptiveThreshold, getStructuringElement, morphologyEx,
    findContours, copy, cv_bind, record, load, lift, alloc, store, ret.
  destruct w as [h cs]. cbn [heap calls].
  destruct (nth_error h gray) as [px|]; [|reflexivity].
  destruct (px_adaptiveThreshold px blocksize C) as [thresh|];
    [|reflexivity].
  destruct (px_getStructuringElement close_size) as [element|];
    [|reflexivity].
  repeat first [rewrite nth_error_alloc_here
               |rewrite nth_error_alloc_before
                  by (rewrite ?length_app; simpl; lia)
               |progress cbn [heap calls fst snd bind]].
  destruct (px_morphologyEx thresh element) as [morphed|]; [|reflexivity].
  repeat first [rewrite nth_error_alloc_here
               |rewrite nth_error_alloc_before
                  by (rewrite ?length_app; simpl; lia)
               |progress cbn [heap calls fst snd bind]].
  destruct (px_findContours morphed) as [r|]; [|reflexivity].
  cbn [heap calls fst snd bind].
  match goal with
  | |- context [cv_map _ _ ?W] =>
      destruct (cv_map_approxPolyDP (snd r) W) as (later & -> & _)
  end.
  destruct (result_map px_approxPolyDP (snd r)); reflexivity.
Qed.

Lemma locate_no_image (w : world) (gray : nat) (blocksize : Z) (C : float)
    (close_size : Z) :
  nth_error (heap w) gray = None ->
  heap (snd (locate gray blocksize C close_size w)) = heap w.
Proof.
  intros Hg.
  unfold locate, locate_datamatrices, _do_morph, adaptiveThreshold, cv_bind,
    record, load.
  cbn [heap calls fst snd]. now rewrite Hg.
Qed.

(** The arrays that exist before a call are the first arrays after it. *)
Lemma locate_keeps_prefix (w : world) (gray : nat) (blocksize : Z)
    (C : float) (close_size : Z) :
  firstn (length (heap w)) (heap (snd (locate gray blocksize C close_size w)))
  = heap w.
Proof.
  destruct (@frame_locate px_adaptiveThreshold px_getStructuringElement
              px_morphologyEx px_findContours px_approxPolyDP not_an_array
              argsort (length (heap w)) gray blocksize C close_size w (le_n _))
    as (Hfirst & _ & _).
  now rewrite firstn_all in Hfirst.
Qed.

Lemma locate_keeps_input (w : world) (gray : nat) (blocksize : Z)
    (C : float) (close_size : Z) :
  nth_error (heap (snd (locate gray blocksize C close_size w))) gray
  = nth_error (heap w) gray.
Proof.
  destruct (nth_error (heap w) gray) as [img|] eqn:Hg.
  - assert (Hlt : gray < length (heap w))
      by (apply nth_error_Some; now rewrite Hg).
    rewrite <- Hg.
    transitivity
      (nth_error
         (firstn (length (heap w))
                 (heap (snd (locate gray blocksize C close_size w)))) gray).
    + rewrite nth_error_firstn.
      destruct (Nat.ltb_spec gray (length (heap w))); [reflexivity|lia].
    + now rewrite locate_keeps_prefix.
  - now rewrite locate_no_image.
Qed.

(** C9. A call of the locator leaves every array that existed before it as
    it was, the input image among them: the thresholded and the closed image
    and the structuring element are new arrays, and the tracer, which writes
    into the image it is given, is given a copy. *)
Theorem C9_input_image_unchanged (w : world) (gray : nat) (blocksize : Z)
    (C : float) (close_size : Z) :
  let w' := snd (locate gray blocksize C close_size w) in
  firstn (length (heap w)) (heap w') = heap w /\
  nth_error (heap w') gray = nth_error (heap w) gray /\
  forall a img, nth_error (heap w) a = Some img ->
                nth_error (heap w') a = Some img.
Proof.
  intros w'. subst w'.
  pose proof (locate_keeps_prefix w gray blocksize C close_size) as Hfirst.
  split; [exact Hfirst|]. split; [apply locate_keeps_input|].
  intros a img Ha.
  assert (Hlt : a < length (heap w)) by (apply nth_error_Some; now rewrite Ha).
  rewrite <- Ha.
  transitivity
    (nth_error
       (firstn (length (heap w))
               (heap (snd (locate gray blocksize C close_size w)))) a).
  - rewrite nth_error_firstn.
    destruct (Nat.ltb_spec a (length (heap w))); [reflexivity|lia].
  - now rewrite Hfirst.
Qed.

(** C8. The locator is a function of its inputs: calls on equal pixels with
    equal parameters return equal results, in whatever worlds they run, and
    a second call on the same image returns what the first returned. *)
Theorem C8_locate_deterministic (w : world) (gray : nat) (blocksize : Z)
    (C : float) (close_size : Z) :
  (forall w2 gray2,
     nth_error (heap w2) gray2 = nth_error (heap w) gray ->
     fst (locate gray2 blocksize C close_size w2)
     = fst (locate gray blocksize C close_size w)) /\
  fst (locate gray blocksize C close_size
         (snd (locate gray blocksize C close_size w)))
  = fst (locate gray blocksize C close_size w).
Proof.
  assert (H : forall w2 gray2,
             nth_error (heap w2) gray2 = nth_error (heap w) gray ->
             fst (locate gray2 blocksize C close_size w2)
             = fst (locate gray blocksize C close_size w)).
  { intros w2 gray2 Hpx. rewrite !locate_result. now rewrite Hpx. }
  split; [exact H|].
  apply H. apply locate_keeps_input.
Qed.

(** C3, as the code has it. The locator checks none of its parameters: its
    first step, whatever their values, is the call of [adaptiveThreshold]
    on the input image with the block size and [C] it was given, and the
    close size goes as it is to [getStructuringElement]. A value is refused
    only by the OpenCV primitive that receives it, and the locator then
    raises that primitive's exception. *)
Theorem C3_parameters_reach_opencv (w : world) (gray : nat) (blocksize : Z)
    (C : float) (close_size : Z) :
  (exists later,
     calls (snd (locate gray blocksize C close_size w))
     = calls w ++ AdaptiveThreshold gray blocksize C :: later) /\
  (forall px e,
     nth_error (heap w) gray = Some px ->
     px_adaptiveThreshold px blocksize C = Raise e ->
     locate gray blocksize C close_size w
     = (Raise e,
        mkWorld (heap w) (calls w ++ [AdaptiveThreshold gray blocksize C]))) /\
  (forall px thresh e,
     nth_error (heap w) gray = Some px ->
     px_adaptiveThreshold px blocksize C = Ok thresh ->
     px_getStructuringElement close_size = Raise e ->
     locate gray blocksize C close_size w
     = (Raise e,
        mkWorld (heap w ++ [thresh])
                (calls w ++ [AdaptiveThreshold gray blocksize C;
                             GetStructuringElement close_size]))).
Proof.
  unfold locate, locate_datamatrices, _do_morph,
    _get_contours, adaptiveThreshold, getStructuringElement, morphologyEx,
    findContours, copy, cv_bind, record, load, lift, alloc, store, ret.
  destruct w as [h cs]. cbn [heap calls].
  split; [|split].
  - destruct (nth_error h gray) as [px|];
      [|cbn [snd calls]; eexists; reflexivity].
    destruct (px_adaptiveThreshold px blocksize C) as [thresh|];
      [|cbn [snd calls]; eexists; reflexivity].
    destruct (px_getStructuringElement close_size) as [element|];
      [|cbn [snd calls]; eexists; rewrite <- app_assoc; reflexivity].
    repeat first [rewrite nth_error_alloc_here
                 |rewrite nth_error_alloc_before
                    by (rewrite ?length_app; simpl; lia)
                 |progress cbn [heap calls fst snd bind]].
    destruct (px_morphologyEx thresh element) as [morphed|];
      [|cbn [snd calls]; eexists; rewrite <- !app_assoc; reflexivity].
    repeat first [rewrite nth_error_alloc_here
                 |rewrite nth_error_alloc_before
                    by (rewrite ?length_app; simpl; lia)
                 |progress cbn [heap calls fst snd bind]].
    destruct (px_findContours morphed) as [r|];
      [|cbn [snd calls]; eexists; rewrite <- !app_assoc; reflexivity].
    cbn [heap calls fst snd bind].
    match goal with
    | |- context [cv_map _ _ ?W] =>
        destruct (cv_map_approxPolyDP (snd r) W) as (later & -> & _)
    end.
    destruct (result_map px_approxPolyDP (snd r));
      cbn [heap calls snd]; eexists; rewrite <- !app_assoc; reflexivity.
  - intros px e Hpx He. now rewrite Hpx, He.
  - intros px thresh e Hpx Ht He. rewrite Hpx, Ht, He.
    cbn [heap calls]. now rewrite <- app_assoc.
Qed.

End LocateFacts.

Lemma C3_parameters_reach_opencv_witness :
  stub_locate 0 4 2%float 3 one_image
  = (Raise CvError,
     mkWorld (heap one_image)
             (calls one_image ++ [AdaptiveThreshold 0 4 2%float])).
Proof.
  apply (proj1 (proj2
           (C3_parameters_reach_opencv stub_adaptiveThreshold
              stub_getStructuringElement stub_morphologyEx stub_findContours
              stub_approxPolyDP CvError np_argsort one_image 0 4 2%float 3))
           [[10; 200]; [200; 10]]%Z CvError);
    reflexivity.
Defined.

(** C3 as stated fails: called with the even block size 4, the locator is not
    stopped before the preprocessor; [adaptiveThreshold] is called with it. *)
Lemma C3_no_validation_counterexample :
  ~ (forall (w : world) (gray : nat) (blocksize : Z) (C : float) (close_size : Z),
       Z.even blocksize = true \/ (blocksize <= 0)%Z \/ (close_size <= 0)%Z ->
       exists e, stub_locate gray blocksize C close_size w = (Raise e, w)).
Proof.
  intros H.
  destruct (H one_image 0 4%Z 2%float 3%Z) as [e He]; [now left|].
  vm_compute in He. discriminate He.
Qed.

Lemma C8_locate_deterministic_witness :
  fst (stub_locate 1 5 2%float 3
         (mkWorld [[[0%Z]]; [[10; 200]; [200; 10]]%Z] []))
  = fst (stub_locate 0 5 2%float 3 one_image).
Proof.
  apply (proj1
           (C8_locate_deterministic stub_adaptiveThreshold
              stub_getStructuringElement stub_morphologyEx stub_findContours
              stub_approxPolyDP CvError np_argsort one_image 0 5 2%float 3)).
  reflexivity.
Defined.

Lemma C9_input_image_unchanged_witness :
  nth_error (heap (snd (stub_locate 0 5 2%float 3 one_image))) 0
  = Some [[10; 200]; [200; 10]]%Z.
Proof.
  apply (proj2 (proj2
           (C9_input_image_unchanged stub_adaptiveThreshold
              stub_getStructuringElement stub_morphologyEx stub_findContours
              stub_approxPolyDP CvError np_argsort one_image 0 5 2%float 3))).
  reflexivity.
Defined.


(** * Further properties of the locator *)

(** ** The edge set and its vertex list *)

Lemma map_combine_same_length (A B : Type) (l1 : list A) (l2 : list B) :
  length l1 = length l2 ->
  map fst (combine l1 l2) = l1 /\ map snd (combine l1 l2) = l2.
Proof.
  revert l2. induction l1 as [|a l1 IH]; intros [|b l2] Hlen;
    try discriminate; simpl; [easy|].
  injection Hlen as Hlen. destruct (IH l2 Hlen) as [-> ->]. easy.
Qed.

(** X1. From two vertices on, the vertex list is read back off the edge set:
    the tails of the edges are the vertices in order, and the heads are the
    vertices rotated by one. *)
Theorem edge_set_round_trip (v0 v1 : vertex) (rest : list vertex) :
  let vs := v0 :: v1 :: rest in
  exists es,
    _convert_to_edge_set vs = Ok es /\
    map fst es = vs /\
    map snd es = (v1 :: rest) ++ [v0].
Proof.
  intros vs. unfold _convert_to_edge_set. subst vs.
  rewrite pairs_circular_two. eexists. split; [reflexivity|].
  apply map_combine_same_length.
  simpl. rewrite length_app. simpl. lia.
Qed.

(** ** The extraction, one edge set after the other *)

Section ExtractionFacts.

Variable argsort : list float -> list nat.
Hypothesis argsort_perm :
  forall keys, Permutation (argsort keys) (seq 0 (length keys)).

(** X2. The edge sets are dealt with independently and in order: the outcome
    on a list put together from two is the outcome on the first followed by
    the outcome on the second, and the first exception met is the one
    raised. *)
Theorem extract_patterns_app (xs ys : list (list edge)) :
  extract_patterns argsort (xs ++ ys)
  = (fps_x <- extract_patterns argsort xs ;;
     fps_y <- extract_patterns argsort ys ;;
     Ok (fps_x ++ fps_y)).
Proof.
  induction xs as [|es xs IH]; cbn [app extract_patterns].
  - cbn [bind]. destruct (extract_patterns argsort ys); reflexivity.
  - destruct (passes (cascade argsort) es) as [[|]|e]; cbn [bind];
      try reflexivity; [|exact IH].
    destruct (_get_finder_pattern argsort es) as [fp|e]; cbn [bind];
      [|reflexivity].
    rewrite IH.
    destruct (extract_patterns argsort xs) as [fps_x|e]; cbn [bind];
      [|reflexivity].
    destruct (extract_patterns argsort ys) as [fps_y|e]; reflexivity.
Qed.

(** The edge sets that pass the four filters. *)
Lemma extract_patterns_survivors (edge_sets : list (list edge))
    (fps : list FinderPattern) :
  extract_patterns argsort edge_sets = Ok fps ->
  exists survivors,
    Forall2 (fun es fp => _get_finder_pattern argsort es = Ok fp) survivors fps /\
    forall keep,
      (forall es, In es edge_sets ->
         keep es = true <-> passes (cascade argsort) es = Ok true) ->
      survivors = filter keep edge_sets.
Proof.
  revert fps. induction edge_sets as [|es rest IH]; intros fps.
  - intros [= <-]. exists []. split; [constructor|reflexivity].
  - cbn [extract_patterns].
    destruct (passes (cascade argsort) es) as [[|]|] eqn:Hp; cbn [bind];
      try discriminate.
    + destruct (_get_finder_pattern argsort es) as [fp|] eqn:Hfp; cbn [bind];
        [|discriminate].
      destruct (extract_patterns argsort rest) as [fps'|]; cbn [bind];
        [|discriminate].
      intros [= <-].
      destruct (IH fps' eq_refl) as (sv & HF & Hsv).
      exists (es :: sv). split; [now constructor|].
      intros keep Hkeep. cbn [filter].
      assert (Hk : keep es = true) by (apply Hkeep; simpl; auto).
      rewrite Hk. f_equal. apply Hsv.
      intros es' Hin. apply Hkeep. simpl. auto.
    + intros Hr. destruct (IH fps Hr) as (sv & HF & Hsv).
      exists sv. split; [assumption|].
      intros keep Hkeep. cbn [filter].
      assert (Hk : keep es = false).
      { destruct (keep es) eqn:E; [|reflexivity].
        apply Hkeep in E; [|simpl; auto]. congruence. }
      rewrite Hk. apply Hsv.
      intros es' Hin. apply Hkeep. simpl. auto.
Qed.

(** X3. When the extraction returns, it returns one pattern for each edge set
    that passed the four filters, in the order of the edge sets; in
    particular no more patterns than edge sets. *)
Theorem extract_patterns_in_order (edge_sets : list (list edge))
    (fps : list FinderPattern) :
  extract_patterns argsort edge_sets = Ok fps ->
  let keep es :=
    match passes (cascade argsort) es with Ok true => true | _ => false end in
  Forall2 (fun es fp => _get_finder_pattern argsort es = Ok fp)
          (filter keep edge_sets) fps /\
  length fps <= length edge_sets.
Proof.
  intros Hr keep.
  destruct (extract_patterns_survivors _ Hr) as (sv & HF & Hsv).
  assert (Hs : sv = filter keep edge_sets).
  { apply Hsv. intros es _. unfold keep.
    destruct (passes (cascade argsort) es) as [[|]|]; split;
      congruence. }
  subst sv. split; [exact HF|].
  rewrite <- (Forall2_length HF). apply filter_length_le.
Qed.

(** X4. Called on an edge set of fewer than two edges, each of the three
    filters on the longest pair and the extractor raise ValueError: the two
    indices cannot be unpacked (or the length of the one edge cannot be
    computed, which is a ValueError too). *)
Theorem longest_pair_users_need_two_edges (edges : list edge) :
  length edges < 2 ->
  _filter_longest_adjacent argsort edges = Raise ValueError /\
  _filter_longest_approx_orthogonal argsort edges = Raise ValueError /\
  _filter_longest_similar_in_length argsort edges = Raise ValueError /\
  _get_finder_pattern argsort edges = Raise ValueError.
Proof.
  intros Hn.
  pose proof (@longest_pair_indices_short argsort argsort_perm edges Hn) as H.
  unfold _filter_longest_adjacent, _filter_longest_approx_orthogonal,
    _filter_longest_similar_in_length, _get_finder_pattern.
  destruct (_longest_pair_indices argsort edges) as [indices|x];
    cbn [bind] in *; [rewrite H|injection H as ->]; cbn [bind]; auto.
Qed.

End ExtractionFacts.

Lemma extract_patterns_in_order_witness :
  length [mkFinderPattern (0, 0) (0, 35) (40, 0)]%Z
  <= length [edges_of plain_square; edges_of notched_square].
Proof.
  apply (@extract_patterns_in_order np_argsort
           [edges_of plain_square; edges_of notched_square]
           [mkFinderPattern (0, 0) (0, 35) (40, 0)]%Z).
  vm_compute. reflexivity.
Defined.

Lemma longest_pair_users_need_two_edges_witness :
  _get_finder_pattern np_argsort [((0, 0), (3, 4))%Z] = Raise ValueError.
Proof.
  apply (@longest_pair_users_need_two_edges np_argsort np_argsort_perm
           [((0, 0), (3, 4))%Z]).
  simpl. lia.
Defined.

(** ** The two small searches of the extractor *)

(** [_get_shared_vertex] returns an end of the first edge that is also
    an end of the second, the tail of the first edge if it is one; it returns
    nothing exactly when no end of the first edge is an end of the second. *)
Lemma get_shared_vertex_spec (edge_a edge_b : edge) :
  match _get_shared_vertex edge_a edge_b with
  | Some x =>
      (x = fst edge_a \/ x = snd edge_a) /\
      (x = fst edge_b \/ x = snd edge_b) /\
      (fst edge_a = fst edge_b \/ fst edge_a = snd edge_b -> x = fst edge_a)
  | None =>
      fst edge_a <> fst edge_b /\ fst edge_a <> snd edge_b /\
      snd edge_a <> fst edge_b /\ snd edge_a <> snd edge_b
  end.
Proof.
  destruct (_get_shared_vertex edge_a edge_b) as [x|] eqn:E.
  - destruct (get_shared_vertex_in _ _ E) as [Ha Hb].
    split; [exact Ha|]. split; [exact Hb|].
    intros Hfst. unfold _get_shared_vertex in E.
    assert (Hin : vertex_eqb (fst edge_a) (fst edge_b)
                  || vertex_eqb (fst edge_a) (snd edge_b) = true).
    { apply orb_true_iff. rewrite !vertex_eqb_eq. exact Hfst. }
    rewrite Hin in E. now injection E.
  - unfold _get_shared_vertex in E.
    destruct (vertex_eqb (fst edge_a) (fst edge_b)
              || vertex_eqb (fst edge_a) (snd edge_b)) eqn:E1; [discriminate|].
    destruct (vertex_eqb (snd edge_a) (fst edge_b)
              || vertex_eqb (snd edge_a) (snd edge_b)) eqn:E2; [discriminate|].
    apply orb_false_iff in E1, E2.
    destruct E1 as [E11 E12], E2 as [E21 E22].
    repeat split; intros H; apply vertex_eqb_eq in H; congruence.
Qed.

Lemma get_other_vertex_none (v : vertex) (e : edge) :
  _get_other_vertex v e = None -> fst e = v /\ snd e = v.
Proof.
  unfold _get_other_vertex.
  destruct (vertex_eqb (fst e) v) eqn:E1; simpl; [|discriminate].
  destruct (vertex_eqb (snd e) v) eqn:E2; simpl; [|discriminate].
  now rewrite !vertex_eqb_eq in *.
Qed.

(** [_get_other_vertex] returns an end of the edge that differs from the
    given vertex, the tail if it differs; it returns nothing exactly when both
    ends are the given vertex. *)
Lemma get_other_vertex_spec (v : vertex) (e : edge) :
  match _get_other_vertex v e with
  | Some c => (c = fst e \/ c = snd e) /\ c <> v /\ (fst e <> v -> c = fst e)
  | None => fst e = v /\ snd e = v
  end.
Proof.
  destruct (_get_other_vertex v e) as [c|] eqn:E.
  - destruct (get_other_vertex_in _ _ E) as [Hin Hne].
    split; [exact Hin|]. split; [exact Hne|].
    intros Hfst. unfold _get_other_vertex in E.
    destruct (vertex_eqb (fst e) v) eqn:E1.
    + apply vertex_eqb_eq in E1. contradiction.
    + simpl in E. now injection E.
  - now apply get_other_vertex_none.
Qed.

(** ** The anatomy of a pattern *)

Lemma np_add_negative_cancel (x c : vertex) :
  np_add x (np_add (np_negative x) c) = c.
Proof.
  destruct x as [x1 x2], c as [c1 c2].
  unfold np_add, np_negative. simpl. f_equal; lia.
Qed.

Lemma corner_vector_nonzero (x c : vertex) :
  c <> x -> np_add (np_negative x) c <> (0, 0)%Z.
Proof.
  destruct x as [x1 x2], c as [c1 c2].
  unfold np_add, np_negative. simpl. intros Hne [= H1 H2].
  apply Hne. f_equal; lia.
Qed.

Section Anatomy.

Variable argsort : list float -> list nat.

(** X5. In a pattern the extractor returns, the corner is an end of each of
    the two longest edges; corner plus base and corner plus side are the other
    ends of those two edges, one each; and neither vector is zero. *)
Theorem finder_pattern_anatomy (edges : list edge) (fp : FinderPattern) :
  _get_finder_pattern argsort edges = Ok fp ->
  exists i j e_i e_j c d,
    _longest_pair_indices argsort edges = Ok [i; j] /\
    nth_error edges i = Some e_i /\ nth_error edges j = Some e_j /\
    _get_shared_vertex e_i e_j = Some (corner fp) /\
    _get_other_vertex (corner fp) e_i = Some c /\
    _get_other_vertex (corner fp) e_j = Some d /\
    ((np_add (corner fp) (base_vector fp) = c /\
      np_add (corner fp) (side_vector fp) = d) \/
     (np_add (corner fp) (base_vector fp) = d /\
      np_add (corner fp) (side_vector fp) = c)) /\
    base_vector fp <> (0, 0)%Z /\ side_vector fp <> (0, 0)%Z.
Proof.
  unfold _get_finder_pattern.
  destruct (_longest_pair_indices argsort edges) as [indices|]; cbn [bind];
    [|discriminate].
  destruct (unpack2 indices) as [[i j]|] eqn:Hij; [|discriminate].
  apply unpack2_ok in Hij. subst indices. cbn [bind].
  destruct (getitem edges i) as [e_i|] eqn:Hi; [|discriminate].
  destruct (getitem edges j) as [e_j|] eqn:Hj; [|discriminate].
  apply getitem_ok in Hi, Hj. cbn [bind].
  destruct (_get_shared_vertex e_i e_j) as [x|] eqn:Hx; [|discriminate].
  destruct (_get_other_vertex x e_i) as [c|] eqn:Hc; [|discriminate].
  destruct (_get_other_vertex x e_j) as [d|] eqn:Hd; [|discriminate].
  destruct (get_other_vertex_in _ _ Hc) as [_ Hcx].
  destruct (get_other_vertex_in _ _ Hd) as [_ Hdx].
  intros Hfp. exists i, j, e_i, e_j, c, d.
  destruct (_ <? 0)%Z; injection Hfp as <-;
    cbn [corner base_vector side_vector];
    rewrite !np_add_negative_cancel;
    repeat split; auto using corner_vector_nonzero.
Qed.

(** X6. Every pattern the extraction returns has a cross product of base and
    side that is zero or negative as line 145 computes it, in 32 bits; it is
    zero or negative as an integer when the components of base and side are
    at most 32767 in magnitude, as they are in an image of at most 32768 by
    32768. *)
Theorem returned_patterns_cross_nonpos (edge_sets : list (list edge))
    (fps : list FinderPattern) (fp : FinderPattern) :
  extract_patterns argsort edge_sets = Ok fps -> In fp fps ->
  (wrap32 (cross (base_vector fp) (side_vector fp)) <= 0)%Z /\
  (small (base_vector fp) = true -> small (side_vector fp) = true ->
   (cross (base_vector fp) (side_vector fp) <= 0)%Z).
Proof.
  intros Hr Hin.
  destruct (@extract_patterns_In argsort edge_sets fps fp Hr Hin)
    as (es & _ & _ & Hfp).
  pose proof (@get_finder_pattern_cross_nonpos argsort es fp Hfp) as Hw.
  split; [exact Hw|].
  intros Hb Hs. now rewrite (cross_small _ _ Hb Hs) in Hw.
Qed.

End Anatomy.

Lemma finder_pattern_anatomy_witness :
  exists i j e_i e_j c d,
    _longest_pair_indices np_argsort (edges_of notched_square)
    = Ok [i; j] /\
    nth_error (edges_of notched_square) i = Some e_i /\
    nth_error (edges_of notched_square) j = Some e_j /\
    _get_shared_vertex e_i e_j = Some (0, 0)%Z /\
    _get_other_vertex (0, 0)%Z e_i = Some c /\
    _get_other_vertex (0, 0)%Z e_j = Some d /\
    ((np_add (0, 0)%Z (0, 35)%Z = c /\ np_add (0, 0)%Z (40, 0)%Z = d) \/
     (np_add (0, 0)%Z (0, 35)%Z = d /\ np_add (0, 0)%Z (40, 0)%Z = c)) /\
    (0, 35)%Z <> (0, 0)%Z /\ (40, 0)%Z <> (0, 0)%Z.
Proof.
  apply (@finder_pattern_anatomy np_argsort
           (edges_of notched_square)
           (mkFinderPattern (0, 0) (0, 35) (40, 0))%Z).
  vm_compute. reflexivity.
Defined.

Lemma returned_patterns_cross_nonpos_witness :
  (wrap32 (cross (0, 35)%Z (40, 0)%Z) <= 0)%Z /\
  (small (0, 35)%Z = true -> small (40, 0)%Z = true ->
   (cross (0, 35)%Z (40, 0)%Z <= 0)%Z).
Proof.
  apply (@returned_patterns_cross_nonpos np_argsort
           [edges_of notched_square]
           [mkFinderPattern (0, 0) (0, 35) (40, 0)]%Z
           (mkFinderPattern (0, 0) (0, 35) (40, 0))%Z).
  - vm_compute. reflexivity.
  - simpl. auto.
Defined.


(** ** The two bounds in an image of at most 32768 by 32768 *)

Section InFrame.

Variable argsort : list float -> list nat.

(** The vectors of a pattern that comes from edges in the frame are small. *)
Lemma in_frame_vectors_small (edge_sets : list (list edge))
    (fps : list FinderPattern) (fp : FinderPattern) :
  forallb (forallb edge_in_frame) edge_sets = true ->
  extract_patterns argsort edge_sets = Ok fps -> In fp fps ->
  small (base_vector fp) = true /\ small (side_vector fp) = true.
Proof.
  intros Hf Hr Hin. rewrite forallb_forall in Hf.
  destruct (@extract_patterns_In argsort edge_sets fps fp Hr Hin)
    as (es & Hes & _ & Hfp).
  specialize (Hf es Hes). rewrite forallb_forall in Hf.
  destruct (@get_finder_pattern_vectors argsort es fp Hfp)
    as (i & j & e_i & e_j & _ & Hi & Hj & Hv).
  apply nth_error_In in Hi, Hj.
  pose proof (edge_in_frame_small _ (Hf _ Hi)) as Si.
  pose proof (edge_in_frame_small _ (Hf _ Hj)) as Sj.
  destruct Hv as [[Hb Hs]|[Hb Hs]];
    rewrite (small_same_line Hb), (small_same_line Hs); auto.
Qed.

(** X17. In an image of at most 32768 by 32768, base and side of every
    pattern the extraction returns pass the orthogonality test on their own
    dot product and squared lengths, taken as integers: the quotient of the
    dot product by the product of the square roots of the squared lengths,
    each operation rounded to binary64, is below 0.1 in magnitude. *)
Theorem in_frame_orthogonality (edge_sets : list (list edge))
    (fps : list FinderPattern) (fp : FinderPattern) :
  forallb (forallb edge_in_frame) edge_sets = true ->
  extract_patterns argsort edge_sets = Ok fps -> In fp fps ->
  let b := base_vector fp in
  let s := side_vector fp in
  (abs (float_of_Z (dot b s)
        / (sqrt (float_of_Z (norm2 b)) * sqrt (float_of_Z (norm2 s))))
   <? tenth)%float = true.
Proof.
  intros Hf Hr Hin b s.
  destruct (@in_frame_vectors_small edge_sets fps fp Hf Hr Hin) as [Sb Ss].
  destruct (@returned_cosine_test argsort edge_sets fps fp Hr Hin)
    as (c & Hc & Hlt).
  unfold fmap, _cosine in Hc.
  rewrite (modulus_small _ Sb), (modulus_small _ Ss) in Hc.
  rewrite (dot_small _ _ Sb Ss) in Hc. cbn [bind] in Hc.
  injection Hc as <-. exact Hlt.
Qed.

(** X18. In an image of at most 32768 by 32768, base and side of every
    pattern the extraction returns pass the similar-length test on the
    square roots of their own squared lengths, taken as integers. *)
Theorem in_frame_length_similarity (edge_sets : list (list edge))
    (fps : list FinderPattern) (fp : FinderPattern) :
  forallb (forallb edge_in_frame) edge_sets = true ->
  extract_patterns argsort edge_sets = Ok fps -> In fp fps ->
  let l_base := sqrt (float_of_Z (norm2 (base_vector fp))) in
  let l_side := sqrt (float_of_Z (norm2 (side_vector fp))) in
  (abs (l_base - l_side) / abs (l_base + l_side) <? tenth)%float = true.
Proof.
  intros Hf Hr Hin l_base l_side.
  destruct (@in_frame_vectors_small edge_sets fps fp Hf Hr Hin) as [Sb Ss].
  destruct (@returned_length_test argsort edge_sets fps fp Hr Hin)
    as (l_b & l_s & Hb & Hs & Hlt).
  rewrite (modulus_small _ Sb) in Hb. rewrite (modulus_small _ Ss) in Hs.
  injection Hb as <-. injection Hs as <-. exact Hlt.
Qed.

End InFrame.

Lemma in_frame_orthogonality_witness :
  (abs (float_of_Z (dot (0, 35)%Z (40, 0)%Z)
        / (sqrt (float_of_Z (norm2 (0, 35)%Z))
           * sqrt (float_of_Z (norm2 (40, 0)%Z))))
   <? tenth)%float = true.
Proof.
  apply (@in_frame_orthogonality np_argsort
           [edges_of plain_square; edges_of notched_square]
           [mkFinderPattern (0, 0) (0, 35) (40, 0)]%Z
           (mkFinderPattern (0, 0) (0, 35) (40, 0))%Z).
  - vm_compute. reflexivity.
  - vm_compute. reflexivity.
  - simpl. auto.
Defined.

Lemma in_frame_length_similarity_witness :
  (abs (sqrt (float_of_Z (norm2 (0, 35)%Z))
        - sqrt (float_of_Z (norm2 (40, 0)%Z)))
   / abs (sqrt (float_of_Z (norm2 (0, 35)%Z))
          + sqrt (float_of_Z (norm2 (40, 0)%Z)))
   <? tenth)%float = true.
Proof.
  apply (@in_frame_length_similarity np_argsort
           [edges_of plain_square; edges_of notched_square]
           [mkFinderPattern (0, 0) (0, 35) (40, 0)]%Z
           (mkFinderPattern (0, 0) (0, 35) (40, 0))%Z).
  - vm_compute. reflexivity.
  - vm_compute. reflexivity.
  - simpl. auto.
Defined.

(** ** The direction of an edge does not matter to the filters *)

Lemma np_subtract_swap (a b : vertex) :
  np_subtract b a = np_negative (np_subtract a b).
Proof.
  unfold np_subtract, np_negative. simpl. f_equal; lia.
Qed.

Lemma same_edge_vector (e e' : edge) :
  same_edge e e' ->
  same_line (np_subtract (fst e') (snd e')) (np_subtract (fst e) (snd e)).
Proof.
  intros [->| ->]; [now left|right].
  unfold reverse_edge. simpl. apply np_subtract_swap.
Qed.

Lemma same_edge_length (e e' : edge) :
  same_edge e e' -> _length e' = _length e.
Proof.
  intros H. unfold _length, _distance.
  apply modulus_same_line. now apply same_edge_vector.
Qed.

Lemma same_edges_lengths (es es' : list edge) :
  Forall2 same_edge es es' ->
  result_map _length es' = result_map _length es.
Proof.
  induction 1 as [|e e' es es' He _ IH]; cbn [result_map]; [reflexivity|].
  now rewrite IH, (same_edge_length He).
Qed.

Lemma same_edges_getitem (es es' : list edge) (i : nat) :
  Forall2 same_edge es es' ->
  match getitem es i, getitem es' i with
  | Ok e, Ok e' => same_edge e e'
  | Raise x, Raise x' => x = x'
  | _, _ => False
  end.
Proof.
  intros H. revert i. unfold getitem.
  induction H as [|e e' es es' He _ IH]; intros [|i]; simpl; auto.
  apply IH.
Qed.


Section Direction.

Variable argsort : list float -> list nat.

Lemma same_edges_longest_pair (es es' : list edge) :
  Forall2 same_edge es es' ->
  _longest_pair_indices argsort es' = _longest_pair_indices argsort es.
Proof.
  intros H. unfold _longest_pair_indices. now rewrite (same_edges_lengths H).
Qed.

Lemma same_edges_adjacent (es es' : list edge) :
  Forall2 same_edge es es' ->
  _filter_longest_adjacent argsort es' = _filter_longest_adjacent argsort es.
Proof.
  intros H. unfold _filter_longest_adjacent.
  now rewrite (same_edges_longest_pair H), (Forall2_length H).
Qed.

Lemma same_edges_orthogonal (es es' : list edge) :
  Forall2 same_edge es es' ->
  _filter_longest_approx_orthogonal argsort es'
  = _filter_longest_approx_orthogonal argsort es.
Proof.
  intros H. unfold _filter_longest_approx_orthogonal.
  rewrite (same_edges_longest_pair H).
  destruct (_longest_pair_indices argsort es) as [indices|]; cbn [bind];
    [|reflexivity].
  destruct (unpack2 indices) as [[i j]|]; [|reflexivity].
  cbn [bind].
  pose proof (same_edges_getitem i H) as Hi.
  pose proof (same_edges_getitem j H) as Hj.
  destruct (getitem es i) as [e_i|], (getitem es' i) as [e_i'|];
    try contradiction; cbn [bind]; [|now subst].
  destruct (getitem es j) as [e_j|], (getitem es' j) as [e_j'|];
    try contradiction; cbn [bind]; [|now subst].
  pose proof (abs_cosine_same_line (same_edge_vector Hi) (same_edge_vector Hj))
    as Hc.
  unfold fmap in Hc.
  destruct (_cosine (np_subtract (fst e_i') (snd e_i'))
                    (np_subtract (fst e_j') (snd e_j'))) as [c'|],
           (_cosine (np_subtract (fst e_i) (snd e_i))
                    (np_subtract (fst e_j) (snd e_j))) as [c|];
    cbn [bind] in *; congruence.
Qed.

Lemma same_edges_similar (es es' : list edge) :
  Forall2 same_edge es es' ->
  _filter_longest_similar_in_length argsort es'
  = _filter_longest_similar_in_length argsort es.
Proof.
  intros H. unfold _filter_longest_similar_in_length.
  rewrite (same_edges_longest_pair H).
  destruct (_longest_pair_indices argsort es) as [indices|]; cbn [bind];
    [|reflexivity].
  destruct (unpack2 indices) as [[i j]|]; [|reflexivity].
  cbn [bind].
  pose proof (same_edges_getitem i H) as Hi.
  pose proof (same_edges_getitem j H) as Hj.
  destruct (getitem es i) as [e_i|], (getitem es' i) as [e_i'|];
    try contradiction; cbn [bind]; [|now subst].
  rewrite (same_edge_length Hi).
  destruct (_length e_i) as [l_i|]; cbn [bind]; [|reflexivity].
  destruct (getitem es j) as [e_j|], (getitem es' j) as [e_j'|];
    try contradiction; cbn [bind]; [|now subst].
  now rewrite (same_edge_length Hj).
Qed.

(** X7. Walking any of the edges of an edge set the other way changes neither
    the lengths (or the ValueError of a length whose square wrapped below
    zero), nor the pair of longest edges, nor the verdict (or the exception)
    of any of the four filters: the 32-bit squares and dot products of a
    vector and of its opposite are the same up to sign. *)
Theorem cascade_ignores_direction (es es' : list edge) :
  Forall2 same_edge es es' ->
  result_map _length es' = result_map _length es /\
  _longest_pair_indices argsort es' = _longest_pair_indices argsort es /\
  passes (cascade argsort) es' = passes (cascade argsort) es.
Proof.
  intros H.
  split; [now apply same_edges_lengths|].
  split; [now apply same_edges_longest_pair|].
  cbn [passes cascade]. unfold _filter_non_trivial.
  rewrite (Forall2_length H), (same_edges_adjacent H),
    (same_edges_orthogonal H), (same_edges_similar H).
  reflexivity.
Qed.

End Direction.

Lemma cascade_ignores_direction_witness :
  passes (cascade np_argsort) (map reverse_edge (edges_of lopsided_contour))
  = passes (cascade np_argsort) (edges_of lopsided_contour).
Proof.
  apply (@cascade_ignores_direction np_argsort
           (edges_of lopsided_contour)
           (map reverse_edge (edges_of lopsided_contour))).
  vm_compute. repeat constructor; now right.
Defined.

(** ** What a call of the locator does to the world *)

Lemma update_alloc_here (A : Type) (h : list A) (x y : A) :
  update (h ++ [x]) (length h) y = h ++ [y].
Proof.
  induction h as [|z h IH]; simpl; [reflexivity|]. now rewrite IH.
Qed.

Section LocateWorld.

Variable px_adaptiveThreshold : image -> Z -> float -> result image.
Variable px_getStructuringElement : Z -> result image.
Variable px_morphologyEx : image -> image -> result image.
Variable px_findContours : image -> result (image * list contour).
Variable px_approxPolyDP : contour -> result (list vertex).
Variable not_an_array : exn.
Variable argsort : list float -> list nat.

Local Abbreviation locate :=
  (locate_datamatrices px_adaptiveThreshold px_getStructuringElement
     px_morphologyEx px_findContours px_approxPolyDP not_an_array argsort).

(** X8. When the OpenCV primitives return, a call makes these calls to
    OpenCV, in this order: the threshold of the input, the structuring
    element, the closing of the thresholded image, the tracing of a copy of
    the closed image, and one [approxPolyDP] for each raw contour, in the
    order of the contours. It adds exactly four image arrays after the
    existing ones (thresholded image, structuring element, closed image, and
    the copy as the tracer left it), and it returns what the filters and the
    extractor make of the simplified contours. *)
Theorem locate_world_after (w : world) (gray : nat) (blocksize : Z) (C : float)
    (close_size : Z) (px thresh element morphed : image)
    (r : image * list contour) (contour_vertex_sets : list (list vertex)) :
  nth_error (heap w) gray = Some px ->
  px_adaptiveThreshold px blocksize C = Ok thresh ->
  px_getStructuringElement close_size = Ok element ->
  px_morphologyEx thresh element = Ok morphed ->
  px_findContours morphed = Ok r ->
  result_map px_approxPolyDP (snd r) = Ok contour_vertex_sets ->
  let n := length (heap w) in
  locate gray blocksize C close_size w
  = (finder_patterns argsort contour_vertex_sets,
     mkWorld (heap w ++ [thresh; element; morphed; fst r])
             (calls w ++ [AdaptiveThreshold gray blocksize C;
                          GetStructuringElement close_size;
                          MorphologyEx n (n + 1);
                          FindContours (n + 3)]
                      ++ map ApproxPolyDP (snd r))).
Proof.
  intros Hpx Ht He Hm Hr Hcvs n. subst n.
  unfold locate_datamatrices, _do_morph,
    _get_contours, adaptiveThreshold, getStructuringElement, morphologyEx,
    findContours, copy, cv_bind, record, load, lift, alloc, store, ret.
  destruct w as [h cs]. cbn [heap calls] in *.
  rewrite Hpx, Ht, He.
  repeat first [rewrite nth_error_alloc_here
               |rewrite nth_error_alloc_before
                  by (rewrite ?length_app; simpl; lia)
               |progress cbn [heap calls fst snd bind]].
  rewrite Hm.
  repeat first [rewrite nth_error_alloc_here
               |rewrite nth_error_alloc_before
                  by (rewrite ?length_app; simpl; lia)
               |progress cbn [heap calls fst snd bind]].
  rewrite Hr. cbn [heap calls fst snd bind].
  match goal with
  | |- context [cv_map _ _ ?W] =>
      destruct (cv_map_approxPolyDP px_approxPolyDP (snd r) W)
        as (later & -> & Hlater)
  end.
  rewrite Hcvs, (Hlater _ Hcvs). cbn [heap calls].
  rewrite update_alloc_here.
  rewrite !length_app. cbn [length].
  rewrite <- !app_assoc. cbn [app].
  replace (length h + 1 + 1 + 1) with (length h + 3) by lia.
  reflexivity.
Qed.

End LocateWorld.

Lemma locate_world_after_witness :
  stub_locate 0 5 2%float 3 one_image
  = (finder_patterns np_argsort [notched_square],
     mkWorld (heap one_image
                ++ [[[10; 200]; [200; 10]]%Z; [[1%Z]];
                    [[10; 200]; [200; 10]]%Z; [[0; 0]; [0; 0]]%Z])
             (calls one_image
                ++ [AdaptiveThreshold 0 5 2%float; GetStructuringElement 3;
                    MorphologyEx 1 2; FindContours 4]
                ++ map ApproxPolyDP [notched_square])).
Proof.
  apply (@locate_world_after stub_adaptiveThreshold stub_getStructuringElement
           stub_morphologyEx stub_findContours stub_approxPolyDP CvError
           np_argsort one_image 0 5 2%float 3
           [[10; 200]; [200; 10]]%Z [[10; 200]; [200; 10]]%Z [[1%Z]]
           [[10; 200]; [200; 10]]%Z
           ([[0; 0]; [0; 0]]%Z, [notched_square]) [notched_square]);
    reflexivity.
Defined.

(** ** Rounding a positive number never gives zero *)

Section RoundingFacts.

Lemma digits2_pos_lower (m : positive) :
  (2 ^ (Zpos (digits2_pos m) - 1) <= Zpos m)%Z.
Proof.
  induction m as [p IH|p IH|]; cbn [digits2_pos].
  - rewrite Pos2Z.inj_succ.
    replace (Z.succ (Zpos (digits2_pos p)) - 1)%Z
      with (Z.succ (Zpos (digits2_pos p) - 1))%Z by lia.
    rewrite Z.pow_succ_r by lia. lia.
  - rewrite Pos2Z.inj_succ.
    replace (Z.succ (Zpos (digits2_pos p)) - 1)%Z
      with (Z.succ (Zpos (digits2_pos p) - 1))%Z by lia.
    rewrite Z.pow_succ_r by lia. lia.
  - simpl. lia.
Qed.

Lemma shr_1_lower (mrs : shr_record) (j : Z) :
  (0 <= j)%Z -> (2 ^ (j + 1) <= shr_m mrs)%Z ->
  (2 ^ j <= shr_m (shr_1 mrs))%Z.
Proof.
  intros Hj. rewrite Z.pow_add_r by lia. change (2 ^ 1)%Z with 2%Z.
  pose proof (Z.pow_pos_nonneg 2 j ltac:(lia) Hj) as Hpos.
  destruct mrs as [m r s]. destruct m as [|[p|p|]|p]; cbn [shr_m shr_1]; lia.
Qed.

Lemma iter_shr_1_lower (k : positive) :
  forall (mrs : shr_record) (j : Z),
    (0 <= j)%Z -> (2 ^ (j + Zpos k) <= shr_m mrs)%Z ->
    (2 ^ j <= shr_m (iter_pos shr_1 k mrs))%Z.
Proof.
  induction k as [k IH|k IH|]; intros mrs j Hj H; cbn [iter_pos].
  - apply IH; [assumption|]. apply IH; [lia|].
    apply shr_1_lower; [lia|].
    replace (j + Zpos k + Zpos k + 1)%Z with (j + Zpos k~1)%Z by lia.
    exact H.
  - apply IH; [assumption|]. apply IH; [lia|].
    replace (j + Zpos k + Zpos k)%Z with (j + Zpos k~0)%Z by lia.
    exact H.
  - now apply shr_1_lower.
Qed.

Lemma shr_m_record_of_loc (m : Z) (l : location) :
  shr_m (shr_record_of_loc m l) = m.
Proof. destruct l as [|[]]; reflexivity. Qed.

(** Shifting a positive mantissa to its place keeps it positive, when the
    exponent is not below the least one. *)
Lemma shr_fexp_pos (m : positive) (e : Z) (l : location) :
  (emin <= e)%Z ->
  (0 < shr_m (fst (shr_fexp prec emax (Zpos m) e l)))%Z /\
  (emin <= snd (shr_fexp prec emax (Zpos m) e l))%Z.
Proof.
  intros He. unfold shr_fexp, shr. cbn [Zdigits2].
  destruct (fexp prec emax (Zpos (digits2_pos m) + e) - e)%Z as [|k|k] eqn:En;
    cbn [fst snd]; rewrite ?shr_m_record_of_loc; try (split; lia).
  assert (Hk : Zpos k = (Zpos (digits2_pos m) - prec)%Z).
  { unfold fexp in En. unfold SpecFloat.emin, prec, emax in *. lia. }
  split.
  - apply Z.lt_le_trans with (2 ^ 0)%Z; [reflexivity|].
    apply iter_shr_1_lower; [lia|].
    rewrite shr_m_record_of_loc.
    apply Z.le_trans with (2 ^ (Zpos (digits2_pos m) - 1))%Z;
      [|apply digits2_pos_lower].
    apply Z.pow_le_mono_r; [lia|]. rewrite Hk. unfold prec. lia.
  - unfold fexp in En. unfold SpecFloat.emin, prec, emax in *. lia.
Qed.

Lemma round_nearest_even_pos (mx : Z) (lx : location) :
  (0 < mx)%Z -> (0 < round_nearest_even mx lx)%Z.
Proof.
  intros H. unfold round_nearest_even.
  destruct lx as [|[]]; try destruct (Z.even mx); lia.
Qed.

Lemma binary_round_aux_not_zero (s s' : bool) (m : positive) (e : Z)
    (l : location) :
  (emin <= e)%Z ->
  binary_round_aux prec emax s (Zpos m) e l <> S754_zero s'.
Proof.
  intros He. unfold binary_round_aux.
  destruct (shr_fexp_pos m l He) as [Hm He'].
  destruct (shr_fexp prec emax (Zpos m) e l) as [mrs' e']. cbn [fst snd] in *.
  pose proof (round_nearest_even_pos (loc_of_shr_record mrs') Hm) as Hr.
  destruct (round_nearest_even (shr_m mrs') (loc_of_shr_record mrs'))
    as [|m1|m1]; try lia.
  destruct (shr_fexp_pos m1 loc_Exact He') as [Hm2 _].
  destruct (shr_fexp prec emax (Zpos m1) e' loc_Exact) as [mrs'' e''].
  cbn [fst snd] in *.
  destruct (shr_m mrs'') as [|m2|m2]; try lia.
  destruct (e'' <=? emax - prec)%Z; discriminate.
Qed.

Lemma binary_round_not_zero (s s' : bool) (m : positive) (e : Z) :
  (emin <= e)%Z -> binary_round prec emax s m e <> S754_zero s'.
Proof.
  intros He. unfold binary_round, shl_align.
  destruct (fexp prec emax (Zpos (digits2_pos m) + e) - e)%Z as [|d|d] eqn:Ed;
    try (now apply binary_round_aux_not_zero).
  apply binary_round_aux_not_zero.
  unfold fexp. lia.
Qed.

End RoundingFacts.


(** ** Square roots, sums and quotients that decide the filters *)

Section SignFacts.

Lemma valid_finite_exponent (s : bool) (m : positive) (e : Z) :
  valid_binary (S754_finite s m e) = true -> (emin <= e)%Z.
Proof.
  cbn [SpecFloat.valid_binary]. unfold bounded, canonical_mantissa.
  intros H. apply andb_true_iff in H. destruct H as [H _].
  apply Z.eqb_eq in H. unfold fexp in H. lia.
Qed.

(** A square root is nan, plus infinity, a zero, or a positive number. *)
Lemma sqrt_shape (x : float) :
  Prim2SF (sqrt x) = S754_nan \/
  Prim2SF (sqrt x) = S754_infinity false \/
  (exists s, Prim2SF (sqrt x) = S754_zero s) \/
  (exists m e, Prim2SF (sqrt x) = S754_finite false m e).
Proof.
  rewrite sqrt_spec. unfold SF64sqrt, SFsqrt.
  destruct (Prim2SF x) as [s|[|]| |[|] m e]; eauto.
  destruct (SFsqrt_core_binary prec emax (Zpos m) e) as [[mz ez] lz].
  unfold binary_round_aux.
  destruct (shr_fexp prec emax mz ez lz) as [mrs' e'].
  destruct (shr_fexp prec emax _ e' loc_Exact) as [mrs'' e''].
  destruct (shr_m mrs''); eauto.
  destruct (e'' <=? emax - prec)%Z; eauto 6.
Qed.

(** Two square roots add up to a zero only when both are zeros. *)
Lemma sqrt_add_zero (x y : float) (s : bool) :
  Prim2SF (sqrt x + sqrt y) = S754_zero s ->
  (exists sx, Prim2SF (sqrt x) = S754_zero sx) /\
  (exists sy, Prim2SF (sqrt y) = S754_zero sy).
Proof.
  rewrite add_spec. unfold SF64add.
  pose proof (Prim2SF_valid (sqrt x)) as Vx.
  pose proof (Prim2SF_valid (sqrt y)) as Vy.
  destruct (sqrt_shape x) as [Hx|[Hx|[[sx Hx]|[mx [ex Hx]]]]];
    destruct (sqrt_shape y) as [Hy|[Hy|[[sy Hy]|[my [ey Hy]]]]];
    rewrite Hx, Hy in *; cbn [SFadd]; try discriminate; eauto.
  apply valid_finite_exponent in Vx, Vy.
  cbn [cond_Zopp Z.add binary_normalize].
  intros H. exfalso. revert H. apply binary_round_not_zero. lia.
Qed.

Lemma abs_eqb_zero (x : float) :
  (abs x =? 0)%float = true -> exists s, Prim2SF x = S754_zero s.
Proof.
  rewrite eqb_spec, abs_spec.
  change (Prim2SF 0) with (S754_zero false).
  destruct (Prim2SF x) as [s|[|]| |[|] m e]; cbn; try discriminate; eauto.
Qed.

Lemma mul_zero_r (a b : float) (s : bool) :
  Prim2SF b = S754_zero s ->
  Prim2SF (a * b) = S754_nan \/ exists s', Prim2SF (a * b) = S754_zero s'.
Proof.
  intros Hb. rewrite mul_spec. unfold SF64mul. rewrite Hb.
  destruct (Prim2SF a); cbn [SFmul]; eauto.
Qed.

Lemma mul_zero_l (a b : float) (s : bool) :
  Prim2SF a = S754_zero s ->
  Prim2SF (a * b) = S754_nan \/ exists s', Prim2SF (a * b) = S754_zero s'.
Proof.
  intros Ha. rewrite float_mul_comm. now apply mul_zero_r with s.
Qed.

(** A quotient by zero or by nan is not below one tenth in magnitude. *)
Lemma lt_tenth_div_zero (d m : float) :
  Prim2SF m = S754_nan \/ (exists s, Prim2SF m = S754_zero s) ->
  (abs (d / m) <? tenth)%float = false.
Proof.
  intros Hm. rewrite ltb_spec, abs_spec, div_spec. unfold SF64div.
  change (Prim2SF tenth) with (S754_finite false 7205759403792794 (-56)).
  destruct Hm as [->|[s ->]]; destruct (Prim2SF d) as [sd|[|]| |[|] md ed];
    reflexivity.
Qed.

(** A length, when there is one, is a square root. *)
Lemma modulus_is_sqrt (v : vector) (m : float) :
  _modulus v = Ok m -> exists x, m = sqrt x.
Proof.
  rewrite modulus_exact. unfold math_sqrt.
  destruct (_ <? 0)%Z; [discriminate|]. intros [= <-]. eauto.
Qed.

Lemma modulus_zero_vector : _modulus (0, 0)%Z = Ok 0%float.
Proof. reflexivity. Qed.

Lemma cosine_zero_vector_l (b : vector) (c : float) :
  _cosine (0, 0)%Z b = Ok c -> (abs c <? tenth)%float = false.
Proof.
  unfold _cosine. rewrite modulus_zero_vector. cbn [bind].
  destruct (_modulus b) as [m_b|]; cbn [bind]; [|discriminate].
  intros [= <-]. apply lt_tenth_div_zero.
  apply mul_zero_l with false. reflexivity.
Qed.

Lemma cosine_zero_vector_r (a : vector) (c : float) :
  _cosine a (0, 0)%Z = Ok c -> (abs c <? tenth)%float = false.
Proof.
  unfold _cosine. rewrite modulus_zero_vector.
  destruct (_modulus a) as [m_a|]; cbn [bind]; [|discriminate].
  intros [= <-]. apply lt_tenth_div_zero.
  apply mul_zero_r with false. reflexivity.
Qed.

(** When the cosine test succeeds, the two lengths do not add up to zero. *)
Lemma cosine_test_sum_nonzero (a b : vector) (c m_a m_b : float) :
  _cosine a b = Ok c -> (abs c <? tenth)%float = true ->
  _modulus a = Ok m_a -> _modulus b = Ok m_b ->
  (abs (m_a + m_b) =? 0)%float = false.
Proof.
  intros Hc Hcos Ha Hb.
  destruct (abs (m_a + m_b) =? 0)%float eqn:E; [|reflexivity].
  apply abs_eqb_zero in E. destruct E as [s E].
  destruct (@modulus_is_sqrt a m_a Ha) as [x Hx].
  destruct (@modulus_is_sqrt b m_b Hb) as [y Hy].
  rewrite Hx, Hy in E.
  apply sqrt_add_zero in E. destruct E as [[sa Ea] _].
  rewrite <- Hx in Ea.
  assert (Hf : (abs c <? tenth)%float = false).
  { unfold _cosine in Hc. rewrite Ha, Hb in Hc. cbn [bind] in Hc.
    injection Hc as <-. apply lt_tenth_div_zero.
    apply mul_zero_l with sa. exact Ea. }
  congruence.
Qed.

End SignFacts.

(** ** What the filters and the extractor raise in the locator *)

Lemma in_combine_both (A B : Type) (l1 : list A) (l2 : list B) (a : A) (b : B) :
  In (a, b) (combine l1 l2) -> In a l1 /\ In b l2.
Proof.
  intros H. split; [eapply in_combine_l|eapply in_combine_r]; exact H.
Qed.

(** The ends of the edges of a contour are vertices of the contour. *)
Lemma edge_set_ends (vs : list vertex) (es : list edge) (e : edge) :
  _convert_to_edge_set vs = Ok es -> In e es ->
  In (fst e) vs /\ In (snd e) vs.
Proof.
  unfold _convert_to_edge_set.
  destruct vs as [|v0 [|v1 rest]].
  - discriminate.
  - intros [= <-] [].
  - rewrite pairs_circular_two. intros Hes Hin.
    assert (Hin' : In e (combine (v0 :: v1 :: rest) ((v1 :: rest) ++ [v0])))
      by congruence.
    destruct e as [a b]. apply in_combine_both in Hin'.
    destruct Hin' as [Ha Hb]. split; [exact Ha|].
    apply in_app_or in Hb. destruct Hb as [Hb|[<-|[]]].
    + now right.
    + now left.
Qed.

Lemma edge_set_in_frame (vs : list vertex) (es : list edge) (e : edge) :
  forallb in_frame vs = true ->
  _convert_to_edge_set vs = Ok es -> In e es ->
  edge_in_frame e = true.
Proof.
  intros Hvs Hes Hin. destruct (@edge_set_ends vs es e Hes Hin) as [Ha Hb].
  rewrite forallb_forall in Hvs. unfold edge_in_frame.
  now rewrite (Hvs _ Ha), (Hvs _ Hb).
Qed.

Section NoException.

Variable argsort : list float -> list nat.
Hypothesis argsort_perm :
  forall keys, Permutation (argsort keys) (seq 0 (length keys)).

Lemma orthogonal_test (es : list edge) (i j : nat) (e_i e_j : edge) :
  _filter_longest_approx_orthogonal argsort es = Ok true ->
  _longest_pair_indices argsort es = Ok [i; j] ->
  nth_error es i = Some e_i -> nth_error es j = Some e_j ->
  exists c,
    _cosine (np_subtract (fst e_i) (snd e_i))
            (np_subtract (fst e_j) (snd e_j)) = Ok c /\
    (abs c <? tenth)%float = true.
Proof.
  intros H Hij Hi Hj. unfold _filter_longest_approx_orthogonal, getitem in H.
  rewrite Hij in H. cbn [unpack2 bind] in H. rewrite Hi, Hj in H.
  cbn [bind] in H.
  destruct (_cosine _ _) as [c|]; cbn [bind] in H; [|discriminate].
  exists c. split; [reflexivity|]. now injection H.
Qed.

(** An edge set that passed the orthogonality filter has two longest edges
    that join distinct points. *)
Lemma orthogonal_edges_proper (es : list edge) (i j : nat) (e_i e_j : edge) :
  _filter_longest_approx_orthogonal argsort es = Ok true ->
  _longest_pair_indices argsort es = Ok [i; j] ->
  nth_error es i = Some e_i -> nth_error es j = Some e_j ->
  fst e_i <> snd e_i /\ fst e_j <> snd e_j.
Proof.
  intros H Hij Hi Hj.
  destruct (@orthogonal_test es i j e_i e_j H Hij Hi Hj) as (c & Hc & Hcos).
  split; intros Heq; rewrite Heq in Hc; unfold np_subtract in Hc;
    rewrite !Z.sub_diag in Hc.
  - apply cosine_zero_vector_l in Hc. congruence.
  - apply cosine_zero_vector_r in Hc. congruence.
Qed.

Lemma similar_in_length_total (es : list edge) (indices : list nat) :
  2 <= length es ->
  _longest_pair_indices argsort es = Ok indices ->
  _filter_longest_approx_orthogonal argsort es = Ok true ->
  exists b, _filter_longest_similar_in_length argsort es = Ok b.
Proof.
  intros Hn Hidx Horth.
  destruct (@longest_pair_indices_shape argsort argsort_perm es indices Hn Hidx)
    as (i & j & e_i & e_j & l_i & l_j & -> & Hi & Hj & Hli & Hlj & _).
  destruct (@orthogonal_test es i j e_i e_j Horth Hidx Hi Hj) as (c & Hc & Hcos).
  pose proof (@cosine_test_sum_nonzero _ _ c l_i l_j Hc Hcos Hli Hlj) as Hsum.
  unfold _filter_longest_similar_in_length, getitem.
  rewrite Hidx. cbn [unpack2 bind]. rewrite Hi, Hj. cbn [bind].
  rewrite Hli. cbn [bind]. rewrite Hlj. cbn [bind].
  rewrite Hsum. eauto.
Qed.

(** The cascade raises nothing but the ValueError of a length. *)
Lemma passes_cascade_geometry (es : list edge) :
  (exists b, passes (cascade argsort) es = Ok b)
  \/ (passes (cascade argsort) es = Raise ValueError /\
      6 < length es /\
      exists e, In e es /\ _length e = Raise ValueError).
Proof.
  destruct (Nat.le_gt_cases (length es) 6) as [Hn|Hn].
  - left. exists false. now apply passes_cascade_short.
  - cbn [passes cascade]. unfold _filter_non_trivial.
    destruct (Nat.ltb_spec 6 (length es)); [|lia]. cbn [bind].
    destruct (_longest_pair_indices argsort es) as [indices|x] eqn:Hidx.
    + left.
      destruct (@filter_longest_adjacent_ok argsort argsort_perm es indices)
        as [b1 ->]; [lia|assumption|].
      cbn [bind]. destruct b1; [|eauto].
      destruct (@filter_longest_approx_orthogonal_ok argsort argsort_perm
                  es indices) as [b2 Hb2]; [lia|assumption|].
      rewrite Hb2. cbn [bind]. destruct b2; [|eauto].
      destruct (@similar_in_length_total es indices) as [b3 ->];
        [lia|assumption|assumption|].
      cbn [bind]. destruct b3; eauto.
    + right. unfold _filter_longest_adjacent. rewrite Hidx. cbn [bind].
      apply (@longest_pair_indices_raise argsort) in Hidx.
      destruct Hidx as [-> He]. auto.
Qed.

(** In the edge set of a vertex list, past the filters, the corner is there
    and so are the two other ends. *)
Lemma get_finder_pattern_total (vs : list vertex) (es : list edge) :
  _convert_to_edge_set vs = Ok es ->
  passes (cascade argsort) es = Ok true ->
  exists fp, _get_finder_pattern argsort es = Ok fp.
Proof.
  intros Hes Hp.
  destruct (@passes_cascade_indices argsort es Hp) as [indices Hidx].
  apply passes_cascade_true in Hp.
  destruct Hp as (Hn & Hadj & Horth & _).
  destruct (@longest_pair_indices_shape argsort argsort_perm es indices)
    as (i & j & e_i & e_j & l_i & l_j & -> & Hi & Hj & _ & _ & Hi' & Hj' & _);
    [lia|assumption|].
  assert (Hvs : 2 <= length vs).
  { destruct vs as [|v0 [|v1 rest]]; try discriminate; simpl; [|lia].
    injection Hes as <-. simpl in Hn. lia. }
  assert (Hlen : length es = length vs)
    by (apply (pairs_circular_length vs Hvs Hes)).
  destruct (@get_shared_vertex_touching e_i e_j) as [x Hx].
  { apply (@adjacent_edges_touch vs es i j); try assumption.
    unfold _filter_longest_adjacent in Hadj. rewrite Hidx in Hadj.
    cbn [unpack2 bind] in Hadj. injection Hadj as Hadj.
    rewrite <- Hlen. apply circular_neighbours; try assumption. lia. }
  destruct (@orthogonal_edges_proper es i j e_i e_j Horth Hidx Hi Hj) as [Pi Pj].
  unfold _get_finder_pattern, getitem.
  rewrite Hidx. cbn [unpack2 bind]. rewrite Hi, Hj. cbn [bind]. rewrite Hx.
  destruct (_get_other_vertex x e_i) as [c|] eqn:Hc;
    [|destruct (get_other_vertex_none _ _ Hc); congruence].
  destruct (_get_other_vertex x e_j) as [d|] eqn:Hd;
    [|destruct (get_other_vertex_none _ _ Hd); congruence].
  destruct (_ <? 0)%Z; eauto.
Qed.

(** What filtering and extraction end in on the contours of an image. *)
Lemma finder_patterns_geometry (contour_vertex_sets : list (list vertex)) :
  (exists fps, finder_patterns argsort contour_vertex_sets = Ok fps)
  \/ (finder_patterns argsort contour_vertex_sets = Raise RuntimeError /\
      In [] contour_vertex_sets)
  \/ (finder_patterns argsort contour_vertex_sets = Raise ValueError /\
      exists vs es e,
        In vs contour_vertex_sets /\ _convert_to_edge_set vs = Ok es /\
        6 < length es /\ In e es /\ _length e = Raise ValueError).
Proof.
  induction contour_vertex_sets as [|vs rest IH]; [simpl; eauto|].
  assert (Hrest :
    (exists fps, finder_patterns argsort rest = Ok fps)
    \/ (finder_patterns argsort rest = Raise RuntimeError /\
        In [] (vs :: rest))
    \/ (finder_patterns argsort rest = Raise ValueError /\
        exists vs' es e,
          In vs' (vs :: rest) /\ _convert_to_edge_set vs' = Ok es /\
          6 < length es /\ In e es /\ _length e = Raise ValueError)).
  { destruct IH as [H|[[H H']|(H & vs' & es & e & H1 & H2)]]; auto.
    - right. left. simpl. auto.
    - right. right. split; [assumption|].
      exists vs', es, e. simpl. tauto. }
  clear IH. cbn [finder_patterns].
  destruct vs as [|v0 vs'].
  { right. left. simpl. auto. }
  destruct (@pairs_circular_ok vertex (v0 :: vs')) as [es Hes]; [discriminate|].
  change (_pairs_circular (v0 :: vs')) with (_convert_to_edge_set (v0 :: vs'))
    in Hes.
  rewrite Hes. cbn [bind].
  destruct (passes_cascade_geometry es) as [[b Hb]|(Hb & Hn & e & He)];
    rewrite Hb; cbn [bind].
  - destruct b; [|exact Hrest].
    destruct (@get_finder_pattern_total (v0 :: vs') es Hes Hb) as [fp ->]. cbn [bind].
    destruct Hrest as [[fps ->]|[[-> H]|[-> H]]]; cbn [bind]; eauto.
  - right. right. split; [reflexivity|].
    exists (v0 :: vs'), es, e. simpl. tauto.
Qed.

(** X9. Whatever order argsort gives to edges of equal length, the filters
    raise nothing but the ValueError of [math.sqrt] on the length of an edge
    whose squared length wrapped below zero in 32 bits: a division by zero in
    the similar-length filter needs two longest edges of length zero, which
    the orthogonality filter has rejected before. On the contours of an image
    filtering and extraction return a list of patterns (the corner and the
    two other ends are always found), or raise RuntimeError for a contour
    without vertices, or that ValueError. In an image of at most 32768 by
    32768 whose contours all have a vertex they return a list of patterns. *)
Theorem geometry_raises_only_on_overflow :
  (forall es : list edge,
     (exists b, passes (cascade argsort) es = Ok b) \/
     (passes (cascade argsort) es = Raise ValueError /\
      6 < length es /\
      exists e, In e es /\ _length e = Raise ValueError)) /\
  (forall contour_vertex_sets : list (list vertex),
     (exists fps, finder_patterns argsort contour_vertex_sets = Ok fps) \/
     (finder_patterns argsort contour_vertex_sets = Raise RuntimeError /\
      In [] contour_vertex_sets) \/
     (finder_patterns argsort contour_vertex_sets = Raise ValueError /\
      exists vs es e,
        In vs contour_vertex_sets /\ _convert_to_edge_set vs = Ok es /\
        6 < length es /\ In e es /\ _length e = Raise ValueError)) /\
  (forall contour_vertex_sets : list (list vertex),
     ~ In [] contour_vertex_sets ->
     forallb (forallb in_frame) contour_vertex_sets = true ->
     exists fps, finder_patterns argsort contour_vertex_sets = Ok fps).
Proof.
  split; [apply passes_cascade_geometry|].
  split; [apply finder_patterns_geometry|].
  intros cvs Hne Hframe.
  destruct (finder_patterns_geometry cvs)
    as [H|[[_ H]|(_ & vs & es & e & Hvs & Hes & _ & He & Hl)]];
    [exact H|contradiction|].
  exfalso. rewrite forallb_forall in Hframe.
  destruct (@length_in_frame e (@edge_set_in_frame vs es e (Hframe _ Hvs) Hes He))
    as [l Hok].
  congruence.
Qed.

End NoException.

Lemma geometry_raises_only_on_overflow_witness :
  exists fps,
    finder_patterns np_argsort [plain_square; notched_square] = Ok fps.
Proof.
  apply (proj2 (proj2
           (@geometry_raises_only_on_overflow np_argsort np_argsort_perm))).
  - simpl. intros [H|[H|[]]]; discriminate H.
  - vm_compute. reflexivity.
Defined.

Section LocateExceptions.

Variable px_adaptiveThreshold : image -> Z -> float -> result image.
Variable px_getStructuringElement : Z -> result image.
Variable px_morphologyEx : image -> image -> result image.
Variable px_findContours : image -> result (image * list contour).
Variable px_approxPolyDP : contour -> result (list vertex).
Variable not_an_array : exn.
Variable argsort : list float -> list nat.
Hypothesis argsort_perm :
  forall keys, Permutation (argsort keys) (seq 0 (length keys)).

Local Abbreviation locate :=
  (locate_datamatrices px_adaptiveThreshold px_getStructuringElement
     px_morphologyEx px_findContours px_approxPolyDP not_an_array argsort).

(** X10. Where an exception of the locator comes from: the image argument is
    no array and the first primitive refuses it; or one of the five OpenCV
    primitives raised that exception on what it was given, the four on
    images in turn and [approxPolyDP] on one of the raw contours; or, the
    primitives having returned, a contour has no vertex (RuntimeError) or an
    edge of a contour of more than six edges has a squared length that wraps
    below zero (ValueError). *)
Theorem locate_exception_sources (w : world) (gray : nat)
    (blocksize : Z) (C : float) (close_size : Z) (e : exn) :
  fst (locate gray blocksize C close_size w) = Raise e ->
  (nth_error (heap w) gray = None /\ e = not_an_array) \/
  exists px, nth_error (heap w) gray = Some px /\
    (px_adaptiveThreshold px blocksize C = Raise e \/
     exists thresh, px_adaptiveThreshold px blocksize C = Ok thresh /\
       (px_getStructuringElement close_size = Raise e \/
        exists element, px_getStructuringElement close_size = Ok element /\
          (px_morphologyEx thresh element = Raise e \/
           exists morphed, px_morphologyEx thresh element = Ok morphed /\
             (px_findContours morphed = Raise e \/
              exists r, px_findContours morphed = Ok r /\
                ((exists rc, In rc (snd r) /\ px_approxPolyDP rc = Raise e) \/
                 exists contour_vertex_sets,
                   result_map px_approxPolyDP (snd r) = Ok contour_vertex_sets /\
                   ((e = RuntimeError /\ In [] contour_vertex_sets) \/
                    (e = ValueError /\
                     exists vs es ed,
                       In vs contour_vertex_sets /\
                       _convert_to_edge_set vs = Ok es /\
                       6 < length es /\ In ed es /\
                       _length ed = Raise ValueError))))))).
Proof.
  rewrite locate_result. unfold locate_outcome.
  destruct (nth_error (heap w) gray) as [px|]; [|intros [= <-]; auto].
  intros H. right. exists px. split; [reflexivity|].
  destruct (px_adaptiveThreshold px blocksize C) as [thresh|e1];
    cbn [bind] in H; [|left; congruence].
  right. exists thresh. split; [reflexivity|].
  destruct (px_getStructuringElement close_size) as [element|e2];
    cbn [bind] in H; [|left; congruence].
  right. exists element. split; [reflexivity|].
  destruct (px_morphologyEx thresh element) as [morphed|e3];
    cbn [bind] in H; [|left; congruence].
  right. exists morphed. split; [reflexivity|].
  destruct (px_findContours morphed) as [r|e4];
    cbn [bind] in H; [|left; congruence].
  right. exists r. split; [reflexivity|].
  destruct (result_map px_approxPolyDP (snd r)) as [cvs|e5] eqn:Hcvs;
    cbn [bind] in H.
  - right. exists cvs. split; [reflexivity|].
    destruct (@finder_patterns_geometry argsort argsort_perm cvs)
      as [[fps Hfps]|[[Hr Hin]|[Hv Hex]]].
    + rewrite Hfps in H. discriminate.
    + left. split; [congruence|exact Hin].
    + right. split; [congruence|exact Hex].
  - left. injection H as <-. now apply result_map_raise in Hcvs.
Qed.

End LocateExceptions.

Lemma locate_exception_sources_witness :
  (nth_error (heap one_image) 0 = None /\ CvError = CvError) \/
  exists px, nth_error (heap one_image) 0 = Some px /\
    (stub_adaptiveThreshold px 4 2%float = Raise CvError \/
     exists thresh, stub_adaptiveThreshold px 4 2%float = Ok thresh /\
       (stub_getStructuringElement 3 = Raise CvError \/
        exists element, stub_getStructuringElement 3 = Ok element /\
          (stub_morphologyEx thresh element = Raise CvError \/
           exists morphed, stub_morphologyEx thresh element = Ok morphed /\
             (stub_findContours morphed = Raise CvError \/
              exists r, stub_findContours morphed = Ok r /\
                ((exists rc, In rc (snd r) /\
                             stub_approxPolyDP rc = Raise CvError) \/
                 exists contour_vertex_sets,
                   result_map stub_approxPolyDP (snd r)
                   = Ok contour_vertex_sets /\
                   ((CvError = RuntimeError /\ In [] contour_vertex_sets) \/
                    (CvError = ValueError /\
                     exists vs es ed,
                       In vs contour_vertex_sets /\
                       _convert_to_edge_set vs = Ok es /\
                       6 < length es /\ In ed es /\
                       _length ed = Raise ValueError))))))).
Proof.
  apply (@locate_exception_sources stub_adaptiveThreshold
           stub_getStructuringElement stub_morphologyEx stub_findContours
           stub_approxPolyDP CvError np_argsort np_argsort_perm one_image 0 4
           2%float 3 CvError).
  reflexivity.
Defined.

(** * Properties of the sample plate *)

Lemma nth_error_py_range (start stop : Z) (k : nat) :
  (Z.of_nat k < stop - start)%Z ->
  nth_error (py_range start stop) k = Some (start + Z.of_nat k)%Z.
Proof.
  intros Hk. unfold py_range.
  rewrite nth_error_map.
  assert (Hs : nth_error (seq 0 (Z.to_nat (stop - start))) k = Some k).
  { rewrite nth_error_nth' with (d := 0) by (rewrite length_seq; lia).
    rewrite seq_nth by lia. reflexivity. }
  now rewrite Hs.
Qed.

Lemma length_py_range (start stop : Z) :
  length (py_range start stop) = Z.to_nat (stop - start).
Proof. unfold py_range. now rewrite length_map, length_seq. Qed.

Lemma py_getitem_nonneg (A : Type) (xs : list A) (i : Z) :
  (0 <= i)%Z -> py_getitem xs i = getitem xs (Z.to_nat i).
Proof.
  intros Hi. unfold py_getitem.
  destruct (Z.leb_spec 0 i); [|lia]. cbn [andb].
  destruct (Z.ltb_spec i (Z.of_nat (length xs))); [reflexivity|].
  destruct (Z.ltb_spec i 0); [lia|]. rewrite andb_false_r.
  unfold getitem.
  destruct (nth_error xs (Z.to_nat i)) eqn:E; [|reflexivity].
  assert (Z.to_nat i < length xs) by (apply nth_error_Some; congruence). lia.
Qed.

Section PlateFacts.

Variable Slot : Type.
Variable State : Type.
Variable Geometry : Type.
Variable new_Slot : Z -> Slot.
Variable state : Slot -> State.
Variable barcode_data : Slot -> String.string.
Variable State_eqb : State -> State -> bool.
Variable VALID EMPTY : State.
Variable EMPTY_SLOT_SYMBOL NOT_FOUND_SLOT_SYMBOL : String.string.
Variable get_num_slots : String.string -> Z.

(** [==] on states decides their equality, and the two states differ. *)
Hypothesis State_eqb_eq : forall a b, State_eqb a b = true <-> a = b.
Hypothesis VALID_not_EMPTY : VALID <> EMPTY.

Local Abbreviation plate := (Plate.Plate Slot Geometry).
Local Abbreviation init := (Plate.__init__ Geometry new_Slot get_num_slots).
Local Abbreviation num_valid := (Plate.num_valid_barcodes state State_eqb VALID).
Local Abbreviation num_empty := (Plate.num_empty_slots state State_eqb EMPTY).
Local Abbreviation num_unread :=
  (Plate.num_unread_barcodes state State_eqb VALID EMPTY).
Local Abbreviation full_valid :=
  (Plate.is_full_valid state State_eqb VALID EMPTY).
Local Abbreviation invalid := (Plate.invalid_slots state State_eqb VALID).
Local Abbreviation contains :=
  (Plate.contains_barcode barcode_data EMPTY_SLOT_SYMBOL NOT_FOUND_SLOT_SYMBOL).
Local Abbreviation in_common :=
  (Plate.has_slots_in_common state barcode_data State_eqb VALID).

Lemma init_slots_nth (uuid gname : String.string) (k : Z) (j : nat) :
  (Z.of_nat j < Plate.num_slots (init uuid gname k))%Z ->
  nth_error (Plate._slots (init uuid gname k)) j
  = Some (new_Slot (1 + Z.of_nat j)).
Proof.
  unfold Plate.__init__. cbn [Plate.num_slots Plate._slots].
  intros Hj. rewrite nth_error_map, nth_error_py_range by lia. reflexivity.
Qed.

Lemma init_slots_length (uuid gname : String.string) (k : Z) :
  length (Plate._slots (init uuid gname k))
  = Z.to_nat (Plate.num_slots (init uuid gname k)).
Proof.
  unfold Plate.__init__. cbn [Plate.num_slots Plate._slots].
  rewrite length_map, length_py_range. f_equal. lia.
Qed.

(** X11. A new plate of [n] slots holds [Slot(1)] to [Slot(n)]: [slot(i)]
    gives [Slot(i)] for [i] from 1 to [n]; an index from [1 - n] to 0 counts
    from the end and gives [Slot(n + i)], so that [slot(0)] is the last slot;
    any other index raises IndexError. The count is the one given, or the
    geometry's when it is left at -1. *)
Theorem plate_init_slot (uuid gname : String.string) (k : Z) :
  let p := init uuid gname k in
  let n := Plate.num_slots p in
  n = (if (k =? -1)%Z then get_num_slots gname else k) /\
  length (Plate._slots p) = Z.to_nat n /\
  (forall i, (1 <= i <= n)%Z -> Plate.slot p i = Ok (new_Slot i)) /\
  (forall i, (- n < i <= 0)%Z -> Plate.slot p i = Ok (new_Slot (n + i))) /\
  (forall i, (n < i \/ i <= - n)%Z -> Plate.slot p i = Raise IndexError).
Proof.
  intros p n.
  pose proof (init_slots_length uuid gname k) as Hlen. fold p n in Hlen.
  split; [reflexivity|]. split; [exact Hlen|].
  unfold Plate.slot, py_getitem. rewrite Hlen.
  split; [|split]; intros i Hi.
  - destruct (Z.leb_spec 0 (i - 1)); [|lia].
    destruct (Z.ltb_spec (i - 1) (Z.of_nat (Z.to_nat n))); [|lia].
    cbn [andb]. unfold getitem. subst p n.
    rewrite init_slots_nth by lia. f_equal. f_equal. lia.
  - destruct (Z.leb_spec 0 (i - 1)); [lia|]. cbn [andb].
    destruct (Z.leb_spec (- Z.of_nat (Z.to_nat n)) (i - 1)); [|lia].
    destruct (Z.ltb_spec (i - 1) 0); [|lia].
    cbn [andb]. unfold getitem. subst p n.
    rewrite init_slots_nth by lia. f_equal. f_equal. lia.
  - destruct (Z.leb_spec 0 (i - 1)), (Z.ltb_spec (i - 1) (Z.of_nat (Z.to_nat n)));
      cbn [andb]; try lia;
      destruct (Z.leb_spec (- Z.of_nat (Z.to_nat n)) (i - 1)),
               (Z.ltb_spec (i - 1) 0);
      cbn [andb]; try lia; reflexivity.
Qed.

(** Counting the slots by state. *)
Lemma count_by_state (slots : list Slot) :
  length (filter (fun s => State_eqb (state s) VALID) slots)
  + length (filter (fun s => State_eqb (state s) EMPTY) slots)
  + length (filter (fun s => negb (State_eqb (state s) VALID)
                             && negb (State_eqb (state s) EMPTY)) slots)
  = length slots.
Proof.
  induction slots as [|s slots IH]; cbn [filter length]; [reflexivity|].
  destruct (State_eqb (state s) VALID) eqn:EV;
    destruct (State_eqb (state s) EMPTY) eqn:EE; cbn [negb andb length];
    try lia.
  apply State_eqb_eq in EV, EE. congruence.
Qed.

Lemma filter_nil_iff (A : Type) (f : A -> bool) (l : list A) :
  length (filter f l) = 0 <-> Forall (fun x => f x = false) l.
Proof.
  induction l as [|x l IH]; cbn [filter]; [split; auto|].
  destruct (f x) eqn:E; cbn [length].
  - split; [lia|]. intros H. inversion H. congruence.
  - rewrite IH. split; [now constructor|]. intros H. now inversion H.
Qed.

(** X12. On a plate that holds as many slots as it counts, the valid, the
    empty and the other slots add up to the count: [num_unread_barcodes] is
    the number of slots that are neither valid nor empty, it is not negative,
    and [is_full_valid] holds exactly when it is zero, that is when every slot
    is valid or empty. *)
Theorem plate_counts (p : plate) :
  Plate.num_slots p = Z.of_nat (length (Plate._slots p)) ->
  num_unread p
  = Z.of_nat (length (filter (fun s => negb (State_eqb (state s) VALID)
                                       && negb (State_eqb (state s) EMPTY))
                             (Plate._slots p))) /\
  (0 <= num_unread p)%Z /\
  (full_valid p = true <-> num_unread p = 0%Z) /\
  (full_valid p = true <->
   Forall (fun s => state s = VALID \/ state s = EMPTY) (Plate._slots p)).
Proof.
  intros Hinv.
  pose proof (count_by_state (Plate._slots p)) as Hc.
  assert (Hu : num_unread p
               = Z.of_nat (length (filter
                   (fun s => negb (State_eqb (state s) VALID)
                             && negb (State_eqb (state s) EMPTY))
                   (Plate._slots p)))).
  { unfold Plate.num_unread_barcodes, Plate.num_valid_barcodes,
      Plate.num_empty_slots. lia. }
  assert (Hf : full_valid p = true <-> num_unread p = 0%Z).
  { unfold Plate.is_full_valid, Plate.num_unread_barcodes.
    rewrite Z.eqb_eq. lia. }
  split; [exact Hu|]. split; [lia|]. split; [exact Hf|].
  rewrite Hf, Hu.
  replace 0%Z with (Z.of_nat 0) by reflexivity. rewrite Nat2Z.inj_iff.
  rewrite filter_nil_iff.
  split; intros H; (eapply Forall_impl; [|exact H]); intros s Hs;
    cbn beta in *.
  - destruct (State_eqb (state s) VALID) eqn:EV;
      [left; now apply State_eqb_eq|].
    destruct (State_eqb (state s) EMPTY) eqn:EE;
      [right; now apply State_eqb_eq|].
    discriminate.
  - destruct Hs as [Hs|Hs]; apply State_eqb_eq in Hs; rewrite Hs;
      [reflexivity|apply andb_false_r].
Qed.

Lemma full_valid_all (p : plate) :
  Plate.num_slots p = Z.of_nat (length (Plate._slots p)) ->
  full_valid p = true ->
  Forall (fun s => state s = VALID \/ state s = EMPTY) (Plate._slots p).
Proof.
  intros Hinv Hf.
  pose proof (count_by_state (Plate._slots p)) as Hc.
  unfold Plate.is_full_valid, Plate.num_valid_barcodes,
    Plate.num_empty_slots in Hf.
  apply Z.eqb_eq in Hf.
  assert (H0 : length (filter (fun s => negb (State_eqb (state s) VALID)
                                        && negb (State_eqb (state s) EMPTY))
                              (Plate._slots p)) = 0) by lia.
  apply filter_nil_iff in H0.
  eapply Forall_impl; [|exact H0]. intros s Hs. cbn beta in Hs.
  destruct (State_eqb (state s) VALID) eqn:EV;
    [left; now apply State_eqb_eq|].
  destruct (State_eqb (state s) EMPTY) eqn:EE;
    [right; now apply State_eqb_eq|].
  discriminate.
Qed.

Lemma filter_complement_length (A : Type) (f : A -> bool) (l : list A) :
  length (filter f l) + length (filter (fun x => negb (f x)) l) = length l.
Proof.
  induction l as [|x l IH]; cbn [filter length]; [reflexivity|].
  destruct (f x); cbn [negb length]; lia.
Qed.

(** X13. [invalid_slots] gives the slots whose state is not valid, in the
    order of the plate; with the valid ones they make up all the slots; and
    on a full valid plate that holds as many slots as it counts, every invalid
    slot is an empty one. *)
Theorem invalid_slots_spec (p : plate) :
  invalid p = filter (fun s => negb (State_eqb (state s) VALID)) (Plate._slots p) /\
  (forall s, In s (invalid p) <-> In s (Plate._slots p) /\ state s <> VALID) /\
  (num_valid p + Z.of_nat (length (invalid p))
   = Z.of_nat (length (Plate._slots p)))%Z /\
  (Plate.num_slots p = Z.of_nat (length (Plate._slots p)) ->
   full_valid p = true ->
   Forall (fun s => state s = EMPTY) (invalid p)).
Proof.
  split; [reflexivity|]. split; [|split].
  - intros s. unfold Plate.invalid_slots. rewrite filter_In.
    rewrite negb_true_iff. split; intros [Hin Hs]; split; try assumption.
    + intros H. apply State_eqb_eq in H. congruence.
    + destruct (State_eqb (state s) VALID) eqn:E; [|reflexivity].
      apply State_eqb_eq in E. contradiction.
  - unfold Plate.invalid_slots, Plate.num_valid_barcodes.
    rewrite <- Nat2Z.inj_add. f_equal. apply filter_complement_length.
  - intros Hinv Hf. pose proof (full_valid_all p Hinv Hf) as Hall.
    unfold Plate.invalid_slots. apply Forall_forall. intros s Hs.
    apply filter_In in Hs. destruct Hs as [Hin Hs].
    rewrite Forall_forall in Hall. destruct (Hall s Hin) as [H|H];
      [|exact H].
    apply State_eqb_eq in H. rewrite H in Hs. discriminate.
Qed.

(** X14. [contains_barcode] answers False for the empty-slot symbol and for
    the not-found symbol, whatever the slots hold; for any other string it
    answers True exactly when some slot of the plate has that barcode
    data. *)
Theorem contains_barcode_spec (p : plate) (barcode : String.string) :
  (barcode = EMPTY_SLOT_SYMBOL \/ barcode = NOT_FOUND_SLOT_SYMBOL ->
   contains p barcode = false) /\
  (barcode <> EMPTY_SLOT_SYMBOL -> barcode <> NOT_FOUND_SLOT_SYMBOL ->
   (contains p barcode = true <->
    exists s, In s (Plate._slots p) /\ barcode_data s = barcode)).
Proof.
  unfold Plate.contains_barcode. split.
  - intros [->| ->]; rewrite String.eqb_refl; [reflexivity|].
    now rewrite orb_true_r.
  - intros H1 H2.
    apply String.eqb_neq in H1, H2. rewrite H1, H2. cbn [orb].
    unfold Plate.barcodes. rewrite existsb_exists. split.
    + intros (b & Hb & Heq). apply in_map_iff in Hb.
      destruct Hb as (s & <- & Hs). apply String.eqb_eq in Heq. eauto.
    + intros (s & Hs & <-). exists (barcode_data s).
      split; [now apply in_map|apply String.eqb_refl].
Qed.

(** X15. Built with a negative count other than -1, a plate has no slot but
    keeps the count: it is not full valid, and the number of its unread
    barcodes is that negative count. *)
Theorem plate_negative_count (uuid gname : String.string) (k : Z) :
  (k < -1)%Z ->
  let p := init uuid gname k in
  Plate._slots p = [] /\ Plate.num_slots p = k /\
  full_valid p = false /\ num_unread p = k.
Proof.
  intros Hk p. subst p. unfold Plate.__init__.
  destruct (Z.eqb_spec k (-1)); [lia|].
  unfold Plate.is_full_valid, Plate.num_unread_barcodes,
    Plate.num_valid_barcodes, Plate.num_empty_slots.
  cbn [Plate._slots Plate.num_slots].
  assert (Hr : py_range 1 (k + 1) = []).
  { unfold py_range. replace (Z.to_nat (k + 1 - 1)) with 0 by lia.
    reflexivity. }
  rewrite Hr. cbn [map filter length Z.of_nat].
  repeat split; try lia.
Qed.

Local Abbreviation common_from :=
  (Plate.common_from state barcode_data State_eqb VALID).

Lemma slot_succ (p : plate) (i : nat) :
  Plate.slot p (Z.of_nat i + 1) = getitem (Plate._slots p) i.
Proof.
  unfold Plate.slot.
  replace (Z.of_nat i + 1 - 1)%Z with (Z.of_nat i) by lia.
  rewrite py_getitem_nonneg by lia. now rewrite Nat2Z.id.
Qed.

Lemma common_test (sa sb : Slot) :
  State_eqb (state sa) VALID
  && String.eqb (barcode_data sa) (barcode_data sb) = true
  <-> state sa = VALID /\ barcode_data sa = barcode_data sb.
Proof. now rewrite andb_true_iff, State_eqb_eq, String.eqb_eq. Qed.

Lemma common_from_true (b : plate) (la : list Slot) :
  forall i,
    (exists k sa sb,
       nth_error la k = Some sa /\
       nth_error (Plate._slots b) (i + k) = Some sb /\
       state sa = VALID /\ barcode_data sa = barcode_data sb) ->
    common_from i la b = Ok true.
Proof.
  induction la as [|s rest IH]; intros i (k & sa & sb & Ha & Hb & Hm).
  - destruct k; discriminate.
  - cbn [Plate.common_from]. rewrite slot_succ. unfold getitem.
    destruct k as [|k].
    + injection Ha as ->. rewrite Nat.add_0_r in Hb. rewrite Hb. cbn [bind].
      apply common_test in Hm. now rewrite Hm.
    + destruct (nth_error (Plate._slots b) i) as [sb0|] eqn:E.
      2:{ apply nth_error_None in E.
          assert (i + S k < length (Plate._slots b))
            by (apply nth_error_Some; congruence).
          lia. }
      cbn [bind].
      destruct (State_eqb (state s) VALID
                && String.eqb (barcode_data s) (barcode_data sb0));
        [reflexivity|].
      apply IH. exists k, sa, sb. simpl in Ha.
      replace (S i + k) with (i + S k) by lia. auto.
Qed.

Lemma common_from_none (b : plate) (la : list Slot) :
  forall i,
    (forall k sa sb,
       nth_error la k = Some sa ->
       nth_error (Plate._slots b) (i + k) = Some sb ->
       ~ (state sa = VALID /\ barcode_data sa = barcode_data sb)) ->
    i <= length (Plate._slots b) ->
    common_from i la b
    = if i + length la <=? length (Plate._slots b) then Ok false
      else Raise IndexError.
Proof.
  induction la as [|s rest IH]; intros i Hno Hi.
  - cbn [Plate.common_from length]. rewrite Nat.add_0_r.
    destruct (Nat.leb_spec i (length (Plate._slots b))); [reflexivity|lia].
  - cbn [Plate.common_from length]. rewrite slot_succ. unfold getitem.
    destruct (nth_error (Plate._slots b) i) as [sb0|] eqn:E.
    + assert (Hlt : i < length (Plate._slots b))
        by (apply nth_error_Some; congruence).
      cbn [bind].
      destruct (State_eqb (state s) VALID
                && String.eqb (barcode_data s) (barcode_data sb0)) eqn:T.
      * exfalso. apply common_test in T.
        apply (Hno 0 s sb0); [reflexivity|now rewrite Nat.add_0_r|exact T].
      * rewrite IH; [|intros k sa sb Ha Hb; apply (Hno (S k) sa sb);
                       [exact Ha|now replace (i + S k) with (S i + k) by lia]
                     |lia].
        replace (S i + length rest) with (i + S (length rest)) by lia.
        reflexivity.
    + apply nth_error_None in E. cbn [bind].
      destruct (Nat.leb_spec (i + S (length rest)) (length (Plate._slots b)));
        [lia|reflexivity].
Qed.

Lemma num_valid_pos (p : plate) :
  (0 < num_valid p)%Z <->
  exists k s, nth_error (Plate._slots p) k = Some s /\ state s = VALID.
Proof.
  unfold Plate.num_valid_barcodes. split.
  - intros H.
    destruct (filter (fun s => State_eqb (state s) VALID) (Plate._slots p))
      as [|s l] eqn:E; [simpl in H; lia|].
    assert (Hin : In s (filter (fun s => State_eqb (state s) VALID)
                               (Plate._slots p)))
      by (rewrite E; simpl; auto).
    apply filter_In in Hin. destruct Hin as [Hin Hs].
    apply In_nth_error in Hin. destruct Hin as [k Hk].
    exists k, s. split; [exact Hk|now apply State_eqb_eq].
  - intros (k & s & Hk & Hs).
    assert (Hin : In s (filter (fun s => State_eqb (state s) VALID)
                               (Plate._slots p))).
    { apply filter_In. split; [eapply nth_error_In; eauto|].
      now apply State_eqb_eq. }
    destruct (filter (fun s => State_eqb (state s) VALID) (Plate._slots p));
      [contradiction|simpl; lia].
Qed.

(** X16. [has_slots_in_common] answers False for plates of different types.
    For plates of one type it answers True as soon as a valid slot of the
    first plate has the barcode data of the slot at the same position of the
    second; with no such position it answers False when the second plate has
    at least as many slots as the first, and raises IndexError when it has
    fewer. A plate has slots in common with itself exactly when it has a
    valid barcode. *)
Theorem has_slots_in_common_spec (a b : plate) :
  let matching :=
    exists k sa sb,
      nth_error (Plate._slots a) k = Some sa /\
      nth_error (Plate._slots b) k = Some sb /\
      state sa = VALID /\ barcode_data sa = barcode_data sb in
  (Plate.type a <> Plate.type b -> in_common a b = Ok false) /\
  (Plate.type a = Plate.type b ->
   (matching -> in_common a b = Ok true) /\
   (~ matching ->
    length (Plate._slots a) <= length (Plate._slots b) ->
    in_common a b = Ok false) /\
   (~ matching ->
    length (Plate._slots b) < length (Plate._slots a) ->
    in_common a b = Raise IndexError)) /\
  in_common a a = Ok (0 <? num_valid a)%Z.
Proof.
  intros matching.
  assert (Hsame : forall b' : plate, Plate.type a = Plate.type b' ->
            in_common a b' = common_from 0 (Plate._slots a) b').
  { intros b' Ht. unfold Plate.has_slots_in_common.
    rewrite Ht, String.eqb_refl. reflexivity. }
  assert (Hnone : forall b' : plate,
            ~ (exists k sa sb,
                 nth_error (Plate._slots a) k = Some sa /\
                 nth_error (Plate._slots b') k = Some sb /\
                 state sa = VALID /\ barcode_data sa = barcode_data sb) ->
            common_from 0 (Plate._slots a) b'
            = if length (Plate._slots a) <=? length (Plate._slots b')
              then Ok false else Raise IndexError).
  { intros b' Hno.
    rewrite common_from_none; [reflexivity| |lia].
    intros k sa sb Ha Hb Hm. apply Hno. exists k, sa, sb. simpl in Hb. auto. }
  split; [|split].
  - intros Ht. unfold Plate.has_slots_in_common.
    apply String.eqb_neq in Ht. now rewrite Ht.
  - intros Ht. rewrite (Hsame b Ht). split; [|split].
    + intros (k & sa & sb & Hm). apply common_from_true.
      exists k, sa, sb. simpl. exact Hm.
    + intros Hno Hlen. rewrite (Hnone b Hno).
      destruct (Nat.leb_spec (length (Plate._slots a))
                             (length (Plate._slots b))); [reflexivity|lia].
    + intros Hno Hlen. rewrite (Hnone b Hno).
      destruct (Nat.leb_spec (length (Plate._slots a))
                             (length (Plate._slots b))); [lia|reflexivity].
  - rewrite (Hsame a eq_refl).
    destruct (Z.ltb_spec 0 (num_valid a)) as [Hv|Hv].
    + apply num_valid_pos in Hv. destruct Hv as (k & s & Hk & Hs).
      apply common_from_true. exists k, s, s. simpl. auto.
    + rewrite Hnone.
      * now rewrite Nat.leb_refl.
      * intros (k & sa & sb & Ha & _ & Hs & _).
        assert (0 < num_valid a)%Z by (apply num_valid_pos; eauto). lia.
Qed.

End PlateFacts.

Lemma plate_init_slot_witness :
  Plate.slot
    (Plate.__init__ unit (fun i : Z => i) (fun _ => 4%Z)
       String.EmptyString String.EmptyString 3) 2
  = Ok 2%Z.
Proof.
  apply (proj1 (proj2 (proj2
           (plate_init_slot unit (fun i : Z => i) (fun _ => 4%Z)
              String.EmptyString String.EmptyString 3)))).
  simpl. lia.
Defined.

Lemma plate_counts_witness :
  (0 <= Plate.num_unread_barcodes (fun s : Z => s) Z.eqb 1%Z 0%Z
          (Plate.mkPlate (Geometry := unit) String.EmptyString 3
             String.EmptyString None [1; 0; 2]%Z))%Z.
Proof.
  apply (proj1 (proj2
           (@plate_counts Z Z unit (fun s : Z => s) Z.eqb 1%Z 0%Z Z.eqb_eq
              ltac:(discriminate)
              (Plate.mkPlate (Geometry := unit) String.EmptyString 3
                 String.EmptyString None [1; 0; 2]%Z)
              eq_refl))).
Defined.

Lemma invalid_slots_spec_witness :
  Forall (fun s : Z => s = 0%Z)
    (Plate.invalid_slots (fun s : Z => s) Z.eqb 1%Z
       (Plate.mkPlate (Geometry := unit) String.EmptyString 3
          String.EmptyString None [1; 0; 1]%Z)).
Proof.
  apply (proj2 (proj2 (proj2
           (@invalid_slots_spec Z Z unit (fun s : Z => s) Z.eqb 1%Z 0%Z
              Z.eqb_eq ltac:(discriminate)
              (Plate.mkPlate (Geometry := unit) String.EmptyString 3
                 String.EmptyString None [1; 0; 1]%Z)))));
    reflexivity.
Defined.

Lemma contains_barcode_spec_witness :
  Plate.contains_barcode (fun _ : Z => String.EmptyString)
    String.EmptyString (String.String Ascii.zero String.EmptyString)
    (Plate.mkPlate (Geometry := unit) String.EmptyString 1
       String.EmptyString None [1%Z])
    String.EmptyString
  = false.
Proof.
  apply (proj1
           (@contains_barcode_spec Z unit (fun _ : Z => String.EmptyString)
              String.EmptyString (String.String Ascii.zero String.EmptyString)
              (Plate.mkPlate (Geometry := unit) String.EmptyString 1
                 String.EmptyString None [1%Z])
              String.EmptyString)).
  left. reflexivity.
Defined.

Lemma plate_negative_count_witness :
  Plate.num_unread_barcodes (fun s : Z => s) Z.eqb 1%Z 0%Z
    (Plate.__init__ unit (fun i : Z => i) (fun _ => 4%Z)
       String.EmptyString String.EmptyString (-5))
  = (-5)%Z.
Proof.
  apply (@plate_negative_count Z Z unit (fun i : Z => i) (fun s : Z => s)
           Z.eqb 1%Z 0%Z (fun _ => 4%Z) String.EmptyString String.EmptyString
           (-5)%Z).
  lia.
Defined.

Lemma has_slots_in_common_spec_witness :
  Plate.has_slots_in_common (fun s : Z => s)
    (fun _ : Z => String.EmptyString) Z.eqb 1%Z
    (Plate.mkPlate (Geometry := unit) String.EmptyString 2
       String.EmptyString None [0; 1]%Z)
    (Plate.mkPlate (Geometry := unit) String.EmptyString 1
       String.EmptyString None [0]%Z)
  = Raise IndexError.
Proof.
  apply (proj2 (proj2 (proj1 (proj2
           (@has_slots_in_common_spec Z Z unit (fun s : Z => s)
              (fun _ : Z => String.EmptyString) Z.eqb 1%Z Z.eqb_eq
              (Plate.mkPlate (Geometry := unit) String.EmptyString 2
                 String.EmptyString None [0; 1]%Z)
              (Plate.mkPlate (Geometry := unit) String.EmptyString 1
                 String.EmptyString None [0]%Z))) eq_refl))).
  - intros (k & sa & sb & Ha & Hb & Hs & _).
    destruct k as [|[|k]]; simpl in Ha, Hb; try discriminate.
    injection Ha as <-. discriminate.
  - simpl. lia.
Defined.

